(** * tools/beautify.py: the repository-mutation tools of the PEP8 agent

    A shallow embedding of [src/tools/beautify.py].  Every tool of the file
    (clone_repo, switch_to_local_repo_path, checkout_source_branch,
    get_files_from_pull_request, run_autopep8, has_changes, commit_and_push)
    is a computation in a state-and-exception monad over a [World]: the
    process environment, the working directory, the file system with its
    git checkouts, the git object store, the remotes, the forge, and the
    trace of observable events (lines printed, git operations, network
    traffic, subprocesses).  The collaborators the file calls into (os,
    GitPython, subprocess, PyGithub, the planner behind AgentExecutor) are
    modelled by the operations of sections 3, 4, 5 and 7; the tools
    themselves, in section 6, follow the source line by line. *)

From stdpp Require Import gmap strings list fin_maps pretty.

Local Open Scope string_scope.
Local Open Scope list_scope.

(* ===================================================================== *)
(** ** 1. Data *)
(* ===================================================================== *)

(** Python values that the tools return or receive. *)
Inductive pyval :=
  | PNone
  | PBool (b : bool)
  | PStr (s : string)
  | PList (l : list string).

(** Exceptions raised by the collaborators. *)
Inductive exn :=
  | GitCommandError
  | InvalidGitRepositoryError
  | NoSuchPathError
  | TypeError
  | ValueError
  | FileNotFoundError
  | AssertionError
  | UnknownObjectException.

(** A commit: its parent (none for a root commit), the tree it records
    (repository-relative path to file content) and its message.  Commit
    identifiers are positions in the object store. *)
Record Commit := mkCommit {
  parent : option nat;
  c_tree : gmap string string;
  message : string
}.

(** Where HEAD points: at a branch, or directly at a commit. *)
Inductive head_ref :=
  | Sym (branch : string)
  | Detached (c : nat).

(** A local checkout: refs/heads, refs/remotes/origin, HEAD, the index,
    the working tree (tracked and untracked files), and the URL of the
    remote called origin. *)
Record Repo := mkRepo {
  heads : gmap string nat;
  tracking : gmap string nat;
  HEAD : head_ref;
  index : gmap string string;
  worktree : gmap string string;
  origin : option string
}.

(** What a remote URL resolves to: the branches of the hosted repository
    and the branch its HEAD names. *)
Record Remote := mkRemote {
  r_heads : gmap string nat;
  r_default : string
}.

(** A directory of the file system: a plain directory or a git checkout. *)
Inductive Node :=
  | PlainDir (files : gmap string string)
  | Checkout (r : Repo).

(** Observable events, in the order they happen. *)
Inductive Event :=
  | Stdout (line : string)
  | EvClone (url path : string)
  | EvCheckout (arg : option string)
  | EvPull
  | EvFetch (url : string)
  | EvAddUpdate
  | EvCommit (id : nat)
  | EvPush (url src dst : string)
  | EvForge (repo_path : string)
  | EvSpawn (argv : list string) (returncode : Z).

(** The external formatter: from the content of a file to the exit status
    and the content left on disk. *)
Definition Formatter := string → Z * string.

Record World := mkWorld {
  environ : gmap string string;
  cwd : string;
  fs : gmap string Node;
  objects : list Commit;
  remotes : gmap string Remote;
  forge : gmap string (gmap Z (list string));
  autopep8 : option Formatter;
  trace : list Event
}.

Definition set_cwd (p : string) (w : World) : World :=
  mkWorld (environ w) p (fs w) (objects w) (remotes w) (forge w) (autopep8 w) (trace w).
Definition set_fs (f : gmap string Node) (w : World) : World :=
  mkWorld (environ w) (cwd w) f (objects w) (remotes w) (forge w) (autopep8 w) (trace w).
Definition set_objects (o : list Commit) (w : World) : World :=
  mkWorld (environ w) (cwd w) (fs w) o (remotes w) (forge w) (autopep8 w) (trace w).
Definition set_remotes (r : gmap string Remote) (w : World) : World :=
  mkWorld (environ w) (cwd w) (fs w) (objects w) r (forge w) (autopep8 w) (trace w).
Definition set_environ (e : gmap string string) (w : World) : World :=
  mkWorld e (cwd w) (fs w) (objects w) (remotes w) (forge w) (autopep8 w) (trace w).
Definition emit (e : Event) (w : World) : World :=
  mkWorld (environ w) (cwd w) (fs w) (objects w) (remotes w) (forge w) (autopep8 w)
          (trace w ++ [e]).

Definition set_heads (h : gmap string nat) (r : Repo) : Repo :=
  mkRepo h (tracking r) (HEAD r) (index r) (worktree r) (origin r).
Definition set_tracking (t : gmap string nat) (r : Repo) : Repo :=
  mkRepo (heads r) t (HEAD r) (index r) (worktree r) (origin r).
Definition set_HEAD (h : head_ref) (r : Repo) : Repo :=
  mkRepo (heads r) (tracking r) h (index r) (worktree r) (origin r).
Definition set_index (i : gmap string string) (r : Repo) : Repo :=
  mkRepo (heads r) (tracking r) (HEAD r) i (worktree r) (origin r).
Definition set_worktree (t : gmap string string) (r : Repo) : Repo :=
  mkRepo (heads r) (tracking r) (HEAD r) (index r) t (origin r).

(* ===================================================================== *)
(** ** 2. The monad of the tools: world passing with exceptions *)
(* ===================================================================== *)

Inductive result (A : Type) :=
  | Ok (a : A) (w : World)
  | Raise (e : exn) (w : World).
Arguments Ok {A} a w.
Arguments Raise {A} e w.

Definition M (A : Type) : Type := World → result A.

Definition ret {A} (a : A) : M A := λ w, Ok a w.
Definition raise {A} (e : exn) : M A := λ w, Raise e w.
Definition bind {A B} (c : M A) (k : A → M B) : M B :=
  λ w, match c w with
       | Ok a w' => k a w'
       | Raise e w' => Raise e w'
       end.
Definition gets {A} (f : World → A) : M A := λ w, Ok (f w) w.
Definition modify (f : World → World) : M unit := λ w, Ok tt (f w).
Definition log (e : Event) : M unit := modify (emit e).

Declare Scope tool_scope.
Delimit Scope tool_scope with tool.
Notation "'do' x <- c ; k" := (bind c (λ x, k))
  (at level 10, x name, c at level 100, k at level 200) : tool_scope.
Notation "c ;; k" := (bind c (λ _, k))
  (at level 100, k at level 200, right associativity) : tool_scope.
Local Open Scope tool_scope.

(** The world a computation ends in, whether it returned or raised. *)
Definition final {A} (r : result A) : World :=
  match r with Ok _ w => w | Raise _ w => w end.

(** The events a computation added to the trace of [w]. *)
Definition emitted {A} (w : World) (r : result A) : list Event :=
  drop (length (trace w)) (trace (final r)).

(* ===================================================================== *)
(** ** 3. Python built-ins and the os module *)
(* ===================================================================== *)

(** [os.getenv(name)]: the value, or None when the variable is unset. *)
Definition getenv (name : string) : M (option string) :=
  gets (λ w, environ w !! name).

(** How an f-string renders [os.getenv(..)]: an unset variable prints as
    the text None. *)
Definition fstr (v : option string) : string :=
  match v with Some s => s | None => "None" end.

Definition print (line : string) : M unit := log (Stdout line).

(** [os.path.exists(path)]. *)
Definition os_path_exists (path : string) : M bool :=
  gets (λ w, bool_decide (is_Some (fs w !! path))).

Definition os_getcwd : M string := gets cwd.

(** [os.chdir(path)]: raises when the directory does not exist. *)
Definition os_chdir (path : string) : M unit :=
  λ w, match fs w !! path with
       | Some _ => Ok tt (set_cwd path w)
       | None => Raise FileNotFoundError w
       end.

(** [try: body except Exception as e: handler(e)]. *)
Definition try_except {A} (body : M A) (handler : exn → M A) : M A :=
  λ w, match body w with
       | Ok a w' => Ok a w'
       | Raise e w' => handler e w'
       end.

(** The text of [str(e)] for the one exception the file formats. *)
Definition exn_text (e : exn) : string :=
  match e with
  | FileNotFoundError => "[Errno 2] No such file or directory: '/tmp/aiw4'"
  | GitCommandError => "GitCommandError"
  | InvalidGitRepositoryError => "InvalidGitRepositoryError"
  | NoSuchPathError => "NoSuchPathError"
  | TypeError => "TypeError"
  | ValueError => "ValueError"
  | AssertionError => "AssertionError"
  | UnknownObjectException => "UnknownObjectException"
  end.

(* ===================================================================== *)
(** ** 4. The version-control client (GitPython over git) *)
(* ===================================================================== *)

Module Git.

(** The tree recorded by commit [c]; the empty tree when there is none. *)
Definition tree_of (objs : list Commit) (c : option nat) : gmap string string :=
  match c with
  | Some i => match objs !! i with Some k => c_tree k | None => ∅ end
  | None => ∅
  end.

(** The commit HEAD resolves to; none on a branch without commits. *)
Definition head_commit (r : Repo) : option nat :=
  match HEAD r with
  | Sym b => heads r !! b
  | Detached c => Some c
  end.

(** [reach objs fuel a b]: commit [a] is [b] or one of its ancestors. *)
Fixpoint reach (objs : list Commit) (fuel : nat) (a b : nat) : bool :=
  if decide (a = b) then true
  else match fuel with
       | O => false
       | S n => match objs !! b with
                | Some k => match parent k with
                            | Some p => reach objs n a p
                            | None => false
                            end
                | None => false
                end
       end.

Definition is_ancestor (objs : list Commit) (a b : nat) : bool :=
  reach objs (length objs) a b.

(** [repo.is_dirty()] with its default arguments: the index differs from
    the tree of HEAD, or a tracked file differs from the index; untracked
    files do not count. *)
Definition is_dirty (objs : list Commit) (r : Repo) : bool :=
  bool_decide (index r ≠ tree_of objs (head_commit r))
  || negb (bool_decide (map_Forall (λ p c, worktree r !! p = Some c) (index r))).

(** The paths that occur in any of three trees. *)
Definition keys (a b c : gmap string string) : gmap string unit :=
  ((λ _, ()) <$> a) ∪ ((λ _, ()) <$> b) ∪ ((λ _, ()) <$> c).

(** Moving a checkout from tree [t] to tree [t']: a path whose entry is
    the same in both keeps what is there, any other path takes the entry
    of [t']. *)
Definition switch_tree (t t' m : gmap string string) : gmap string string :=
  map_imap (λ p _, if decide (t !! p = t' !! p) then m !! p else t' !! p)
           (keys t t' m).

(** git refuses the move when a path it has to rewrite carries local
    changes or is an untracked file. *)
Definition switch_safe (t t' idx wt : gmap string string) : bool :=
  bool_decide (map_Forall
    (λ p _, t !! p = t' !! p ∨ (idx !! p = t !! p ∧ wt !! p = t !! p))
    (keys t t' ∅)).

(** [git.Repo(path)]: the checkout at [path]. *)
Definition open (path : string) : M Repo :=
  λ w, match fs w !! path with
       | Some (Checkout r) => Ok r w
       | Some (PlainDir _) => Raise InvalidGitRepositoryError w
       | None => Raise NoSuchPathError w
       end.

Definition store (path : string) (r : Repo) : M unit :=
  modify (λ w, set_fs (<[path := Checkout r]> (fs w)) w).

(** The checkout a clone of [rm] creates: on the remote's default branch,
    with a clean tree. *)
Definition cloned (objs : list Commit) (url : string) (rm : Remote) : Repo :=
  let tip := r_heads rm !! r_default rm in
  let t := tree_of objs tip in
  mkRepo (match tip with
          | Some c => {[ r_default rm := c ]}
          | None => ∅
          end)
         (r_heads rm) (Sym (r_default rm)) t t (Some url).

(** [git.Repo.clone_from(url, path)]: git clone refuses a non-empty
    directory and fails when the URL resolves to nothing (unreachable
    remote, rejected credential). *)
Definition clone_from (url path : string) : M unit :=
  log (EvClone url path) ;;
  do occupied <- gets (λ w, match fs w !! path with
                            | None => false
                            | Some (PlainDir f) => bool_decide (f ≠ ∅)
                            | Some (Checkout _) => true
                            end);
  if occupied : bool then raise GitCommandError
  else
    do rem <- gets (λ w, remotes w !! url);
    match rem with
    | None => raise GitCommandError
    | Some rm =>
        do objs <- gets objects;
        store path (cloned objs url rm)
    end.

(** Put the checkout on [b] at commit [c], carrying local changes over
    where git allows it. *)
Definition switch_to (path : string) (r : Repo) (b : string) (c : nat) : M unit :=
  do objs <- gets objects;
  let t := tree_of objs (head_commit r) in
  let t' := tree_of objs (Some c) in
  if switch_safe t t' (index r) (worktree r) then
    store path
      (mkRepo (<[b := c]> (heads r)) (tracking r) (Sym b)
              (switch_tree t t' (index r)) (switch_tree t t' (worktree r))
              (origin r))
  else raise GitCommandError.

(** [repo.git.checkout(arg)].  GitPython drops arguments that are None, so
    an unset branch name runs a bare checkout, which changes nothing.  A
    name that is no local branch but a branch of origin creates the local
    branch from it. *)
Definition checkout (path : string) (arg : option string) : M unit :=
  log (EvCheckout arg) ;;
  match arg with
  | None => ret tt
  | Some b =>
      do r <- open path;
      match heads r !! b with
      | Some c => switch_to path r b c
      | None =>
          match tracking r !! b with
          | Some c => switch_to path r b c
          | None => raise GitCommandError
          end
      end
  end.

(** [repo.git.pull()]: fetch origin, then bring the current branch up to
    its same-named remote branch.  The branch is fast-forwarded or already
    contains the remote tip; diverged histories are an error (git refuses
    to reconcile them without configuration). *)
Definition pull (path : string) : M unit :=
  log EvPull ;;
  do r <- open path;
  match HEAD r, origin r with
  | Sym b, Some url =>
      log (EvFetch url) ;;
      do rem <- gets (λ w, remotes w !! url);
      match rem with
      | None => raise GitCommandError
      | Some rm =>
          let r1 := set_tracking (r_heads rm ∪ tracking r) r in
          store path r1 ;;
          do objs <- gets objects;
          match r_heads rm !! b, heads r !! b with
          | None, _ => raise GitCommandError
          | Some rc, None => switch_to path r1 b rc
          | Some rc, Some lc =>
              if is_ancestor objs rc lc then ret tt
              else if is_ancestor objs lc rc then switch_to path r1 b rc
              else raise GitCommandError
          end
      end
  | _, _ => raise GitCommandError
  end.

(** [repo.active_branch]: a TypeError on a detached HEAD. *)
Definition active_branch (path : string) : M string :=
  do r <- open path;
  match HEAD r with
  | Sym b => ret b
  | Detached _ => raise TypeError
  end.

(** [repo.git.add(update=True)], that is git add --update: every path of
    the index is refreshed from the working tree, or dropped when the file
    is gone; paths that are not in the index are not looked at. *)
Definition staged (idx wt : gmap string string) : gmap string string :=
  map_imap (λ p _, wt !! p) idx.

Definition add_update (path : string) : M unit :=
  log EvAddUpdate ;;
  do r <- open path;
  store path (set_index (staged (index r) (worktree r)) r).

(** [repo.index.commit(message)]: writes the index as a tree and creates
    a commit on top of HEAD, whatever the tree is, then moves HEAD (the
    branch it names, or HEAD itself when detached) to it. *)
Definition index_commit (path : string) (msg : string) : M nat :=
  do r <- open path;
  do objs <- gets objects;
  let id := length objs in
  modify (set_objects (objs ++ [mkCommit (head_commit r) (index r) msg])) ;;
  log (EvCommit id) ;;
  store path (match HEAD r with
              | Sym b => set_heads (<[b := id]> (heads r)) r
              | Detached _ => set_HEAD (Detached id) r
              end) ;;
  ret id.

(** [repo.remote(name='origin')]: a ValueError when there is none. *)
Definition remote_origin (path : string) : M string :=
  do r <- open path;
  match origin r with
  | Some url => ret url
  | None => raise ValueError
  end.

(** One entry of the list [origin.push] returns. *)
Record PushInfo := mkPushInfo {
  summary : string;
  remote_ref : string;
  local_ref : string;
  flags : Z
}.

Definition NEW_HEAD : Z := 2.
Definition REJECTED : Z := 8.
Definition FAST_FORWARD : Z := 256.
Definition UP_TO_DATE : Z := 512.
Definition ERROR : Z := 1024.

(** [origin.push(refspec=src:dst)].  It raises when git reports no ref at
    all (remote unreachable, no local branch [src]); a rejected update is
    reported in the flags of the entry, not raised. *)
Definition push (path url src dst : string) : M (list PushInfo) :=
  log (EvPush url src dst) ;;
  do r <- open path;
  do rem <- gets (λ w, remotes w !! url);
  do objs <- gets objects;
  match rem, heads r !! src with
  | Some rm, Some lc =>
      let accept (fl : Z) (sm : string) :=
        modify (λ w, set_remotes
                       (<[url := mkRemote (<[dst := lc]> (r_heads rm)) (r_default rm)]>
                          (remotes w)) w) ;;
        store path (set_tracking (<[dst := lc]> (tracking r)) r) ;;
        ret [mkPushInfo sm ("origin/" +:+ dst) src fl] in
      match r_heads rm !! dst with
      | None => accept NEW_HEAD "[new branch]"
      | Some rc =>
          if decide (rc = lc) then
            ret [mkPushInfo "[up to date]" ("origin/" +:+ dst) src UP_TO_DATE]
          else if is_ancestor objs rc lc then
            accept FAST_FORWARD (pretty rc +:+ ".." +:+ pretty lc)
          else
            ret [mkPushInfo "[rejected] (non-fast-forward)" ("origin/" +:+ dst) src
                            (Z.lor REJECTED ERROR)]
      end
  | _, _ => raise GitCommandError
  end.

End Git.

(* ===================================================================== *)
(** ** 5. subprocess and the forge client *)
(* ===================================================================== *)

Definition node_files (n : Node) : gmap string string :=
  match n with
  | PlainDir f => f
  | Checkout r => worktree r
  end.

Definition write_node (name content : string) (n : Node) : Node :=
  match n with
  | PlainDir f => PlainDir (<[name := content]> f)
  | Checkout r => Checkout (set_worktree (<[name := content]> (worktree r)) r)
  end.

(** The content of [name], a path relative to directory [dir]. *)
Definition read_file (dir name : string) (w : World) : option string :=
  fs w !! dir ≫= λ n, node_files n !! name.

Definition write_file (dir name content : string) (w : World) : World :=
  set_fs (alter (write_node name content) dir (fs w)) w.

(** The exit status of autopep8 when it cannot read its input. *)
Definition EXIT_CODE_ERROR : Z := 1.

(** [subprocess.run(argv)] without check=True: the exit status comes back
    in the CompletedProcess and is never raised; only a program that
    cannot be started raises.  The one program of this world is autopep8,
    run as autopep8 --in-place file: it rewrites the file in the working
    directory, and exits with an error when the file is not there. *)
Definition subprocess_run (argv : list string) : M Z :=
  match argv with
  | [prog; opt; file] =>
      if decide (prog = "autopep8" ∧ opt = "--in-place") then
        do tool <- gets autopep8;
        match tool with
        | None => raise FileNotFoundError
        | Some fmt =>
            do dir <- os_getcwd;
            do content <- gets (read_file dir file);
            match content with
            | None => log (EvSpawn argv EXIT_CODE_ERROR) ;; ret EXIT_CODE_ERROR
            | Some c =>
                modify (write_file dir file (fmt c).2) ;;
                log (EvSpawn argv (fmt c).1) ;;
                ret (fmt c).1
            end
        end
      else raise FileNotFoundError
  | _ => raise FileNotFoundError
  end.

(** [int(s)] on the text of an environment variable: an optional sign and
    decimal digits (surrounding blanks and digit-group underscores, which
    Python also accepts, are not modelled). *)
Definition digit_of (a : Stdlib.Strings.Ascii.ascii) : option Z :=
  let n := Z.of_nat (Stdlib.Strings.Ascii.nat_of_ascii a) in
  if decide (48 ≤ n ≤ 57)%Z then Some (n - 48)%Z else None.

Fixpoint parse_digits (s : string) (acc : Z) : option Z :=
  match s with
  | EmptyString => Some acc
  | String a s' =>
      match digit_of a with
      | Some d => parse_digits s' (10 * acc + d)%Z
      | None => None
      end
  end.

Definition parse_int (s : string) : option Z :=
  match s with
  | EmptyString => None
  | String a rest =>
      if decide (String a EmptyString = "-") then
        match rest with
        | EmptyString => None
        | _ => Z.opp <$> parse_digits rest 0
        end
      else if decide (String a EmptyString = "+") then
        match rest with
        | EmptyString => None
        | _ => parse_digits rest 0
        end
      else parse_digits s 0
  end.

Definition py_int (v : option string) : M Z :=
  match v with
  | None => raise TypeError
  | Some s => match parse_int s with
              | Some n => ret n
              | None => raise ValueError
              end
  end.

(** [Github(token).get_repo(repo_path)] and [repo.get_pull(n).get_files()]:
    the forge answers for the repositories and pull requests it knows. *)
Definition get_repo (repo_path : option string) : M (gmap Z (list string)) :=
  match repo_path with
  | None => raise AssertionError
  | Some rp =>
      log (EvForge rp) ;;
      do f <- gets (λ w, forge w !! rp);
      match f with
      | Some pulls => ret pulls
      | None => raise UnknownObjectException
      end
  end.

Definition get_pull_files (pulls : gmap Z (list string)) (n : Z) : M (list string) :=
  match pulls !! n with
  | Some files => ret files
  | None => raise UnknownObjectException
  end.

(* ===================================================================== *)
(** ** 6. The tools of beautify.py *)
(* ===================================================================== *)

Definition LOCAL_REPO_PATH : string := "/tmp/aiw4".

(** The f-string of line 25. *)
Definition repo_url_of (token repo_path : option string) : string :=
  "https://" +:+ fstr token +:+ "@github.com/" +:+ fstr repo_path +:+ ".git".

Definition clone_repo : M pyval :=
  do token <- getenv "GITHUB_TOKEN";
  do repo_path <- getenv "REPO_PATH";
  let repo_url := repo_url_of token repo_path in
  do present <- os_path_exists LOCAL_REPO_PATH;
  if negb present then
    Git.clone_from repo_url LOCAL_REPO_PATH ;;
    print ("Cloned repo from " +:+ repo_url +:+ " to " +:+ LOCAL_REPO_PATH) ;;
    ret PNone
  else
    print ("Repo already exists at " +:+ LOCAL_REPO_PATH) ;;
    ret PNone.

Definition switch_to_local_repo_path : M pyval :=
  try_except
    (os_chdir LOCAL_REPO_PATH ;;
     print ("Switched to directory: " +:+ LOCAL_REPO_PATH) ;;
     ret PNone)
    (λ e, print ("Failed to switch to directory: " +:+ exn_text e) ;;
          ret PNone).

Definition checkout_source_branch : M pyval :=
  do dir <- os_getcwd;
  do _ <- Git.open dir;
  Git.checkout dir (Some "main") ;;
  Git.pull dir ;;
  do source <- getenv "SOURCE_BRANCH";
  Git.checkout dir source ;;
  do active <- Git.active_branch dir;
  print ("Active branch: " +:+ active) ;;
  ret PNone.

Definition get_files_from_pull_request : M pyval :=
  do _token <- getenv "GITHUB_TOKEN";
  do repo_path <- getenv "REPO_PATH";
  do repo <- get_repo repo_path;
  do number <- getenv "PR_NUMBER";
  do pull_request_number <- py_int number;
  do files <- get_pull_files repo pull_request_number;
  ret (PList files).

(** The loop of run_autopep8; the function has no return statement. *)
Fixpoint run_autopep8 (files : list string) : M pyval :=
  match files with
  | [] => ret PNone
  | file :: rest =>
      subprocess_run ["autopep8"; "--in-place"; file] ;;
      run_autopep8 rest
  end.

Definition py_bool (b : bool) : string := if b then "True" else "False".

Definition has_changes : M pyval :=
  do dir <- os_getcwd;
  do r <- Git.open dir;
  do objs <- gets objects;
  print ("Repo has changes: " +:+ py_bool (Git.is_dirty objs r)) ;;
  ret (PBool (Git.is_dirty objs r)).

Fixpoint print_push_result (push_result : list Git.PushInfo) : M unit :=
  match push_result with
  | [] => ret tt
  | push_info :: rest =>
      print ("  - Summary: " +:+ Git.summary push_info) ;;
      print ("    Remote ref: " +:+ Git.remote_ref push_info) ;;
      print ("    Local ref: " +:+ Git.local_ref push_info) ;;
      print ("    Flags: " +:+ pretty (Git.flags push_info)) ;;
      print_push_result rest
  end.

Definition commit_and_push (commit_message : string) : M pyval :=
  do source <- getenv "SOURCE_BRANCH";
  let branch_name := fstr source in
  do dir <- os_getcwd;
  do _ <- Git.open dir;
  do active <- Git.active_branch dir;
  print ("Active branch: " +:+ active) ;;
  Git.add_update dir ;;
  do _ <- Git.index_commit dir commit_message;
  do url <- Git.remote_origin dir;
  print ("Pushing changes to remote branch '" +:+ branch_name +:+ "'") ;;
  do push_result <- Git.push dir url branch_name branch_name;
  print "Push result:" ;;
  print_push_result push_result ;;
  ret PNone.

(* ===================================================================== *)
(** ** 7. The agent executor *)
(* ===================================================================== *)

(** A tool call the planner can ask for (the shell tool, which runs
    arbitrary commands, is left out of the model). *)
Inductive ToolCall :=
  | call_clone_repo
  | call_switch_to_local_repo_path
  | call_checkout_source_branch
  | call_get_files_from_pull_request
  | call_run_autopep8 (files : list string)
  | call_has_changes
  | call_commit_and_push (commit_message : string).

Definition invoke (c : ToolCall) : M pyval :=
  match c with
  | call_clone_repo => clone_repo
  | call_switch_to_local_repo_path => switch_to_local_repo_path
  | call_checkout_source_branch => checkout_source_branch
  | call_get_files_from_pull_request => get_files_from_pull_request
  | call_run_autopep8 files => run_autopep8 files
  | call_has_changes => has_changes
  | call_commit_and_push m => commit_and_push m
  end.

(** The planner (the language model bound to the tools): from the
    intermediate steps so far, the next tool call, or the end of the run. *)
Definition Planner := list (ToolCall * pyval) → option ToolCall.

(** How a run ends: the planner finished (or max_iterations ran out) after
    the given steps, or a tool raised, which ends the script. *)
Inductive run_outcome :=
  | Finished (steps : list (ToolCall * pyval)) (w : World)
  | Crashed (steps : list (ToolCall * pyval)) (c : ToolCall) (e : exn) (w : World).

(** AgentExecutor: ask the planner, run the tool it names, append the
    observation, repeat.  [fuel] is max_iterations. *)
Fixpoint agent_executor (fuel : nat) (plan : Planner)
    (steps : list (ToolCall * pyval)) (w : World) : run_outcome :=
  match fuel with
  | O => Finished steps w
  | S n =>
      match plan steps with
      | None => Finished steps w
      | Some c =>
          match invoke c w with
          | Ok obs w' => agent_executor n plan (steps ++ [(c, obs)]) w'
          | Raise e w' => Crashed steps c e w'
          end
      end
  end.

(** The source builds AgentExecutor without max_iterations, so the bound
    is the default of the library. *)
Definition max_iterations : nat := 15.

Definition run (plan : Planner) (w : World) : run_outcome :=
  agent_executor max_iterations plan [] w.

(** The steps a run completed, and the tool calls it made. *)
Definition steps_of (o : run_outcome) : list (ToolCall * pyval) :=
  match o with
  | Finished steps _ => steps
  | Crashed steps _ _ _ => steps
  end.

Definition invoked (o : run_outcome) : list ToolCall :=
  match o with
  | Finished steps _ => steps.*1
  | Crashed steps c _ _ => steps.*1 ++ [c]
  end.

Definition world_of (o : run_outcome) : World :=
  match o with
  | Finished _ w => w
  | Crashed _ _ _ w => w
  end.

(* ===================================================================== *)
(** ** 8. Observations on traces and runs *)
(* ===================================================================== *)

(** Events that go over the network. *)
Definition is_network (e : Event) : bool :=
  match e with
  | EvClone _ _ | EvFetch _ | EvPush _ _ _ | EvForge _ => true
  | _ => false
  end.

(** The lines a world has printed to standard output. *)
Definition stdout (w : World) : list string :=
  omap (λ e, match e with Stdout l => Some l | _ => None end) (trace w).

(** The formatter invocations of a trace: the file each one was given. *)
Definition formatted_paths (t : list Event) : list string :=
  omap (λ e, match e with
             | EvSpawn [_; _; file] _ => Some file
             | _ => None
             end) t.

(** has_changes has answered False in these steps. *)
Definition reported_clean (steps : list (ToolCall * pyval)) : Prop :=
  (call_has_changes, PBool false) ∈ steps.

(** The [j]-th call of a run is a commit_and_push made after has_changes
    had answered False. *)
Definition publish_after_clean (o : run_outcome) (j : nat) : Prop :=
  (∃ m, invoked o !! j = Some (call_commit_and_push m))
  ∧ reported_clean (take j (steps_of o)).

(** A planner that never asks for commit_and_push once has_changes has
    answered False. *)
Definition respects_skip (plan : Planner) : Prop :=
  ∀ steps m, reported_clean steps → plan steps ≠ Some (call_commit_and_push m).

(** [path] holds a valid checkout. *)
Definition valid_checkout (w : World) (path : string) : Prop :=
  ∃ r, fs w !! path = Some (Checkout r).

(** A returned value is an aggregate of [n] per-file entries. *)
Definition has_entries (v : pyval) (n : nat) : Prop :=
  ∃ l, v = PList l ∧ length l = n.

(** The selection the specification of formatFiles describes: the files of
    the change set that match the filter and exist in the checkout. *)
Definition formatFiles_selection (matches : string → bool) (w : World)
    (changeSet : list string) : list string :=
  filter (λ f, matches f = true ∧ is_Some (read_file (cwd w) f w)) changeSet.

(** The object store is well formed: parents are older than their children. *)
Definition wf_store (objs : list Commit) : Prop :=
  ∀ i k p, objs !! i = Some k → parent k = Some p → p < i.

(** The URL clone_repo builds in world [w]. *)
Definition url_in (w : World) : string :=
  repo_url_of (environ w !! "GITHUB_TOKEN") (environ w !! "REPO_PATH").

Definition already_exists : Event :=
  Stdout ("Repo already exists at " +:+ LOCAL_REPO_PATH).

Definition cloned_from (url : string) : Event :=
  Stdout ("Cloned repo from " +:+ url +:+ " to " +:+ LOCAL_REPO_PATH).

(** The world in which GITHUB_TOKEN is [t]. *)
Definition with_token (t : string) (w : World) : World :=
  set_environ (<["GITHUB_TOKEN" := t]> (environ w)) w.

(** The command line of one formatter run. *)
Definition argv_of (file : string) : list string :=
  ["autopep8"; "--in-place"; file].

(** What one formatter run does to the world and the exit status it ends
    with, when the executable is [fmt]. *)
Definition format_one (fmt : Formatter) (file : string) (w : World) : Z * World :=
  match read_file (cwd w) file w with
  | None => (EXIT_CODE_ERROR, emit (EvSpawn (argv_of file) EXIT_CODE_ERROR) w)
  | Some c =>
      ((fmt c).1,
       emit (EvSpawn (argv_of file) (fmt c).1) (write_file (cwd w) file (fmt c).2 w))
  end.

(** A file name ends in .py. *)
Definition is_py (file : string) : bool :=
  String.prefix (String.rev ".py") (String.rev file).

(** The events of a trace that are not lines of output. *)
Definition is_output (e : Event) : bool :=
  match e with Stdout _ => true | _ => false end.

Definition actions (t : list Event) : list Event :=
  filter (λ e, is_output e = false) t.

(** No call made so far is a commit_and_push after a False answer. *)
Definition skip_kept (steps : list (ToolCall * pyval)) (calls : list ToolCall) : Prop :=
  ∀ j m, calls !! j = Some (call_commit_and_push m) → ¬ reported_clean (take j steps).

(* ===================================================================== *)
(** ** 9. Concrete worlds *)
(* ===================================================================== *)

Module Fixture.

Definition tree_main : gmap string string :=
  {[ "a.py" := "x=1 "; "b.txt" := "hello " ]}.
Definition tree_feature : gmap string string :=
  {[ "a.py" := "x=1 "; "b.txt" := "hello "; "c.py" := "y = 2" ]}.

Definition objs : list Commit :=
  [ mkCommit None tree_main "init";
    mkCommit (Some 0) tree_feature "add c.py" ].

Definition hosted : Remote :=
  mkRemote {[ "main" := 0; "feature" := 1 ]} "main".

Definition url : string := "https://tok@github.com/linhbn123/aiw4.git".
Definition url' : string := "https://kot@github.com/linhbn123/aiw4.git".

Definition env : gmap string string :=
  {[ "GITHUB_TOKEN" := "tok"; "REPO_PATH" := "linhbn123/aiw4";
     "SOURCE_BRANCH" := "feature"; "PR_NUMBER" := "42" ]}.

(** A formatter that removes one trailing blank and always exits 0. *)
Definition tidy : Formatter :=
  λ c, if decide (c = "x=1 ") then (0%Z, "x=1")
       else if decide (c = "hello ") then (0%Z, "hello")
       else (0%Z, c).

(** A formatter that rejects the content of a.py and leaves it alone. *)
Definition picky : Formatter :=
  λ c, if decide (c = "x=1 ") then (1%Z, c) else (0%Z, c).

(** Nothing cloned yet. *)
Definition fresh_with (fmt : option Formatter) : World :=
  mkWorld env "/" {[ "/" := PlainDir ∅ ]} objs
          {[ url := hosted; url' := hosted ]}
          {[ "linhbn123/aiw4" := {[ 42%Z := ["a.py"; "b.txt"; "c.py"] ]} ]}
          fmt [].

Definition fresh : World := fresh_with (Some tidy).

(** The local path is taken by a directory that is no checkout. *)
Definition occupied : World :=
  mkWorld env "/" {[ "/" := PlainDir ∅;
                     "/tmp/aiw4" := PlainDir {[ "notes.txt" := "todo" ]} ]}
          objs {[ url := hosted ]} ∅ (Some tidy) [].

(** A clean checkout of [branch], with the working directory in it. *)
Definition checkout_on (branch : string) (fmt : option Formatter) : World :=
  mkWorld env "/tmp/aiw4"
          {[ "/" := PlainDir ∅;
             "/tmp/aiw4" :=
               Checkout (mkRepo {[ "main" := 0; "feature" := 1 ]}
                                {[ "main" := 0; "feature" := 1 ]}
                                (Sym branch)
                                (Git.tree_of objs (if decide (branch = "main")
                                                   then Some 0 else Some 1))
                                (Git.tree_of objs (if decide (branch = "main")
                                                   then Some 0 else Some 1))
                                (Some url)) ]}
          objs {[ url := hosted ]}
          {[ "linhbn123/aiw4" := {[ 42%Z := ["a.py"; "b.txt"; "c.py"] ]} ]}
          fmt [].

(** The planner that does what the prompt says, step by step: clone, change
    directory, check out, list the files, format them, look for changes,
    commit and push. *)
Definition literal : Planner :=
  λ steps,
    match length steps with
    | 0 => Some call_clone_repo
    | 1 => Some call_switch_to_local_repo_path
    | 2 => Some call_checkout_source_branch
    | 3 => Some call_get_files_from_pull_request
    | 4 => match last steps with
           | Some (_, PList l) => Some (call_run_autopep8 l)
           | _ => None
           end
    | 5 => Some call_has_changes
    | 6 => Some (call_commit_and_push "Beautify code as per PEP8")
    | _ => None
    end.

(** The same planner, ending the run once has_changes has answered False. *)
Definition saw_clean (steps : list (ToolCall * pyval)) : bool :=
  existsb (λ s, match s with
                | (call_has_changes, PBool false) => true
                | _ => false
                end) steps.

Definition guarded : Planner :=
  λ steps, if saw_clean steps then None else literal steps.

End Fixture.

(* ===================================================================== *)
(** ** 9a. Further observations and worlds *)
(* ===================================================================== *)

(** A computation leaves the observation [f] of the world as it found it,
    whether it returns or raises. *)
Definition keeps {A B : Type} (f : World → A) (c : M B) : Prop :=
  ∀ w, f (final (c w)) = f w.

(** The value a computation returned, if it returned. *)
Definition answer {A : Type} (r : result A) : option A :=
  match r with
  | Ok a _ => Some a
  | Raise _ _ => None
  end.

(** A checkout with nothing staged, nothing modified and no untracked
    file: index and working tree are the tree of HEAD. *)
Definition pristine (objs : list Commit) (r : Repo) : Prop :=
  index r = Git.tree_of objs (Git.head_commit r) ∧ worktree r = index r.

(** The checkout and the world commit_and_push has reached once the commit
    is made, on a checkout [r] whose HEAD is on branch [a]. *)
Definition committed (a : string) (id : nat) (r : Repo) : Repo :=
  set_heads (<[a := id]> (heads r))
            (set_index (Git.staged (index r) (worktree r)) r).

Definition after_commit (msg a : string) (r : Repo) (w : World) : World :=
  set_fs (<[cwd w := Checkout (committed a (length (objects w)) r)]>
            (<[cwd w := Checkout (set_index (Git.staged (index r) (worktree r)) r)]> (fs w)))
    (emit (EvCommit (length (objects w)))
       (set_objects
          (objects w ++ [mkCommit (heads r !! a) (Git.staged (index r) (worktree r)) msg])
          (emit EvAddUpdate (emit (Stdout ("Active branch: " +:+ a)) w)))).

(** A checkout put on branch [b] at commit [c], with index and working
    tree equal to the tree of [c]. *)
Definition on_branch (objs : list Commit) (b : string) (c : nat) (r : Repo) : Repo :=
  mkRepo (<[b := c]> (heads r)) (tracking r) (Sym b)
         (Git.tree_of objs (Some c)) (Git.tree_of objs (Some c)) (origin r).

(** What commit_and_push does from the push on. *)
Definition push_and_report (dir url branch_name : string) : M pyval :=
  do push_result <- Git.push dir url branch_name branch_name;
  print "Push result:" ;;
  print_push_result push_result ;;
  ret PNone.

Module Cases.

(** A world whose working directory is the checkout [r]. *)
Definition at_checkout (r : Repo) (objs : list Commit)
    (rems : gmap string Remote) (env : gmap string string)
    (fmt : option Formatter) : World :=
  mkWorld env "/tmp/aiw4"
          {[ "/" := PlainDir ∅; "/tmp/aiw4" := Checkout r ]}
          objs rems
          {[ "linhbn123/aiw4" := {[ 42%Z := ["a.py"; "b.txt"; "c.py"] ]} ]}
          fmt [].

Definition refs : gmap string nat := {[ "main" := 0; "feature" := 1 ]}.

Definition on_main : Repo :=
  mkRepo refs refs (Sym "main") Fixture.tree_main Fixture.tree_main (Some Fixture.url).

Definition on_feature : Repo :=
  mkRepo refs refs (Sym "feature") Fixture.tree_feature Fixture.tree_feature
         (Some Fixture.url).

(** A third commit, made locally on top of the root commit. *)
Definition objs3 : list Commit :=
  Fixture.objs ++ [mkCommit (Some 0) Fixture.tree_main "local work"].

(** The local main has a commit the remote has not, and the remote's main
    has moved to a commit the local main has not. *)
Definition diverged : World :=
  at_checkout
    (mkRepo {[ "main" := 2; "feature" := 1 ]} refs (Sym "main")
            Fixture.tree_main Fixture.tree_main (Some Fixture.url))
    objs3
    {[ Fixture.url := mkRemote {[ "main" := 1; "feature" := 1 ]} "main" ]}
    Fixture.env None.

(** HEAD points at a commit, not at a branch. *)
Definition detached : World :=
  at_checkout
    (mkRepo refs refs (Detached 1) Fixture.tree_feature Fixture.tree_feature
            (Some Fixture.url))
    Fixture.objs {[ Fixture.url := Fixture.hosted ]} Fixture.env None.

(** The checkout has no remote called origin. *)
Definition no_origin : World :=
  at_checkout
    (mkRepo refs refs (Sym "feature") Fixture.tree_feature Fixture.tree_feature None)
    Fixture.objs {[ Fixture.url := Fixture.hosted ]} Fixture.env None.

(** The URL of origin resolves to nothing. *)
Definition unreachable : World :=
  at_checkout on_feature Fixture.objs ∅ Fixture.env None.

(** SOURCE_BRANCH is not set. *)
Definition no_source_branch : World :=
  at_checkout on_feature Fixture.objs {[ Fixture.url := Fixture.hosted ]}
    (delete "SOURCE_BRANCH" Fixture.env) None.

(** The remote's feature branch has moved to a commit the local one does
    not contain. *)
Definition remote_ahead : World :=
  at_checkout on_feature objs3
    {[ Fixture.url := mkRemote {[ "main" := 0; "feature" := 2 ]} "main" ]}
    Fixture.env None.

(** The working directory is a plain directory. *)
Definition outside : World :=
  mkWorld Fixture.env "/" {[ "/" := PlainDir ∅ ]} Fixture.objs
          {[ Fixture.url := Fixture.hosted ]} ∅ (Some Fixture.tidy) [].

(** The remote cannot be reached and nothing is cloned. *)
Definition offline : World :=
  mkWorld Fixture.env "/" {[ "/" := PlainDir ∅ ]} Fixture.objs ∅ ∅
          (Some Fixture.tidy) [].

End Cases.

(* ===================================================================== *)
(** ** 10. Strings and a tactic *)
(* ===================================================================== *)

(** Projections of updated worlds and checkouts. *)
Ltac wsimpl :=
  cbn [final environ cwd fs objects remotes forge autopep8 trace
       set_cwd set_fs set_objects set_remotes set_environ emit
       heads tracking HEAD index worktree origin
       set_heads set_tracking set_HEAD set_index set_worktree] in *.

Lemma string_app_cons a s t : String a s +:+ t = String a (s +:+ t).
Proof. reflexivity. Qed.

Lemma string_length_app s t : String.length (s +:+ t) = String.length s + String.length t.
Proof. induction s as [|a s IH]; [done|]. rewrite string_app_cons. simpl. by rewrite IH. Qed.

(** A common suffix cancels. *)
Lemma string_app_inj_suffix s1 s2 t : s1 +:+ t = s2 +:+ t → s1 = s2.
Proof.
  revert s2. induction s1 as [|a s1 IH]; intros [|b s2] H.
  - done.
  - apply (f_equal String.length) in H. rewrite string_app_cons in H. simpl in H.
    rewrite !string_length_app in H. simpl in H. lia.
  - apply (f_equal String.length) in H. rewrite string_app_cons in H. simpl in H.
    rewrite !string_length_app in H. simpl in H. lia.
  - rewrite !string_app_cons in H. injection H as -> H. f_equal. by apply IH.
Qed.

(** The clone URL determines the token it was built from. *)
Lemma repo_url_of_inj t1 t2 rp :
  repo_url_of (Some t1) rp = repo_url_of (Some t2) rp → t1 = t2.
Proof.
  unfold repo_url_of. simpl. intros H.
  apply (inj (String.app "https://")) in H.
  by apply string_app_inj_suffix in H.
Qed.

(* ===================================================================== *)
(** ** 11. clone_repo *)
(* ===================================================================== *)

Section CloneRepo.

Implicit Types w : World.

(** The else branch: the path exists. *)
Lemma clone_repo_present w :
  is_Some (fs w !! LOCAL_REPO_PATH) →
  clone_repo w = Ok PNone (emit already_exists w).
Proof.
  intros Hs. unfold clone_repo, bind, getenv, os_path_exists, gets. simpl.
  rewrite bool_decide_eq_true_2 by done. reflexivity.
Qed.

(** The then branch: the path does not exist and git clone runs. *)
Lemma clone_repo_absent w :
  fs w !! LOCAL_REPO_PATH = None →
  clone_repo w =
    match remotes w !! url_in w with
    | Some rm =>
        Ok PNone
           (emit (cloned_from (url_in w))
              (set_fs (<[LOCAL_REPO_PATH := Checkout (Git.cloned (objects w) (url_in w) rm)]> (fs w))
                 (emit (EvClone (url_in w) LOCAL_REPO_PATH) w)))
    | None => Raise GitCommandError (emit (EvClone (url_in w) LOCAL_REPO_PATH) w)
    end.
Proof.
  intros Hn. unfold clone_repo, bind, getenv, os_path_exists, gets. simpl.
  rewrite bool_decide_eq_false_2 by (rewrite Hn; by intros [? ?]).
  simpl. unfold Git.clone_from, bind, log, modify, gets, raise. simpl.
  rewrite Hn. fold (url_in w).
  change (remotes (emit (EvClone (url_in w) LOCAL_REPO_PATH) w)) with (remotes w).
  destruct (remotes w !! url_in w); reflexivity.
Qed.

(** A call that returns leaves something at the local path. *)
Lemma clone_repo_leaves_path w v w1 :
  clone_repo w = Ok v w1 → is_Some (fs w1 !! LOCAL_REPO_PATH).
Proof.
  intros H. destruct (fs w !! LOCAL_REPO_PATH) as [n|] eqn:E.
  - rewrite clone_repo_present in H by eauto. injection H as _ <-. simpl. eauto.
  - rewrite clone_repo_absent in H by done.
    destruct (remotes w !! url_in w); [|done].
    injection H as _ <-. simpl. rewrite lookup_insert_eq. eauto.
Qed.

End CloneRepo.

(** C4. clone_repo is idempotent: once a call has returned, a repeated call
    returns None and only prints that the repository exists; the file system,
    the object store, the remotes, the environment and the working directory
    are as they were, and no event of the repeated call goes over the
    network. *)
Theorem clone_repo_idempotent (w w1 : World) (v : pyval) :
  clone_repo w = Ok v w1 →
  clone_repo w1 = Ok PNone (emit already_exists w1)
  ∧ fs (final (clone_repo w1)) = fs w1
  ∧ objects (final (clone_repo w1)) = objects w1
  ∧ remotes (final (clone_repo w1)) = remotes w1
  ∧ environ (final (clone_repo w1)) = environ w1
  ∧ cwd (final (clone_repo w1)) = cwd w1
  ∧ filter (λ e, is_network e = true) (emitted w1 (clone_repo w1)) = [].
Proof.
  intros H. apply clone_repo_leaves_path in H.
  rewrite (clone_repo_present w1 H). simpl.
  repeat split. unfold emitted. simpl.
  rewrite drop_app_length. reflexivity.
Qed.

Lemma clone_repo_idempotent_witness :
  clone_repo (final (clone_repo Fixture.fresh))
  = Ok PNone (emit already_exists (final (clone_repo Fixture.fresh)))
  ∧ filter (λ e, is_network e = true)
      (emitted Fixture.fresh (clone_repo Fixture.fresh))
    = [EvClone Fixture.url LOCAL_REPO_PATH].
Proof.
  split.
  - refine (proj1 (clone_repo_idempotent Fixture.fresh
                     (final (clone_repo Fixture.fresh)) PNone _)).
    vm_compute. reflexivity.
  - vm_compute. reflexivity.
Defined.

(** The guard of clone_repo is the existence of the local path: git clone
    is run when nothing is there, and is not run when something is. *)
Lemma clone_repo_guard_is_path_existence (w : World) :
  match fs w !! LOCAL_REPO_PATH with
  | None =>
      ∃ rest, emitted w (clone_repo w) = EvClone (url_in w) LOCAL_REPO_PATH :: rest
  | Some _ =>
      clone_repo w = Ok PNone (emit already_exists w)
      ∧ emitted w (clone_repo w) = [already_exists]
  end.
Proof.
  destruct (fs w !! LOCAL_REPO_PATH) as [n|] eqn:E.
  - rewrite clone_repo_present by eauto. split; [done|].
    unfold emitted. simpl. by rewrite drop_app_length.
  - rewrite clone_repo_absent by done.
    destruct (remotes w !! url_in w); unfold emitted; simpl.
    + rewrite <- (assoc_L (++)). rewrite drop_app_length. eauto.
    + rewrite drop_app_length. eauto.
Qed.

(** C5. The code at the input that breaks the claim: the local path is
    occupied by a directory that is no checkout.  The claim (and the
    docstring, "if not already cloned") asks for a clone into it or for a
    failure; clone_repo does neither: it prints that the repo already
    exists and returns None with no network traffic.  The directory is
    still no checkout afterwards, and checkout_source_branch, run from it,
    raises the error of git.Repo. *)
Lemma clone_repo_reuses_plain_directory :
  ¬ valid_checkout Fixture.occupied LOCAL_REPO_PATH
  ∧ clone_repo Fixture.occupied = Ok PNone (emit already_exists Fixture.occupied)
  ∧ filter (λ e, is_network e = true)
      (emitted Fixture.occupied (clone_repo Fixture.occupied)) = []
  ∧ ¬ valid_checkout (final (clone_repo Fixture.occupied)) LOCAL_REPO_PATH
  ∧ ∃ w1 w2,
      switch_to_local_repo_path (final (clone_repo Fixture.occupied)) = Ok PNone w1
      ∧ checkout_source_branch w1 = Raise InvalidGitRepositoryError w2.
Proof.
  split; [|split; [|split; [|split]]].
  - intros [r Hr]. vm_compute in Hr. discriminate Hr.
  - vm_compute. reflexivity.
  - vm_compute. reflexivity.
  - intros [r Hr]. vm_compute in Hr. discriminate Hr.
  - exists (final (switch_to_local_repo_path (final (clone_repo Fixture.occupied)))).
    exists (final (switch_to_local_repo_path (final (clone_repo Fixture.occupied)))).
    split; vm_compute; reflexivity.
Qed.

Lemma stdout_emit_line w l : stdout (emit (Stdout l) w) = (stdout w ++ [l])%list.
Proof. unfold stdout, emit. simpl. by rewrite omap_app. Qed.

Lemma stdout_emit_clone w u p : stdout (emit (EvClone u p) w) = stdout w.
Proof. unfold stdout, emit. simpl. rewrite omap_app. simpl. by rewrite app_nil_r. Qed.

Lemma url_in_with_token t w :
  url_in (with_token t w) = repo_url_of (Some t) (environ w !! "REPO_PATH").
Proof.
  unfold url_in, with_token. simpl.
  rewrite lookup_insert_eq. by rewrite lookup_insert_ne.
Qed.

Lemma clone_repo_stdout (w w1 : World) (v : pyval) :
  fs w !! LOCAL_REPO_PATH = None →
  clone_repo w = Ok v w1 →
  stdout w1
  = (stdout w ++ ["Cloned repo from " +:+ url_in w +:+ " to " +:+ LOCAL_REPO_PATH])%list.
Proof.
  intros Hn H. rewrite clone_repo_absent in H by done.
  destruct (remotes w !! url_in w); [|done]. injection H as _ <-.
  unfold cloned_from. rewrite stdout_emit_line. f_equal.
  apply (stdout_emit_clone w).
Qed.

(** C10. On a first-time clone the URL that clone_repo prints carries the
    value of GITHUB_TOKEN, and two runs that differ only in the token print
    different text. *)
Theorem clone_repo_prints_token (w w1 w2 : World) (t1 t2 : string) (v1 v2 : pyval) :
  fs w !! LOCAL_REPO_PATH = None →
  clone_repo (with_token t1 w) = Ok v1 w1 →
  clone_repo (with_token t2 w) = Ok v2 w2 →
  stdout w1
  = (stdout w ++
       ["Cloned repo from " +:+ repo_url_of (Some t1) (environ w !! "REPO_PATH")
          +:+ " to " +:+ LOCAL_REPO_PATH])%list
  ∧ (t1 ≠ t2 → stdout w1 ≠ stdout w2).
Proof.
  intros Hn H1 H2.
  apply clone_repo_stdout in H1; [|done]. apply clone_repo_stdout in H2; [|done].
  rewrite url_in_with_token in H1, H2.
  change (stdout (with_token t1 w)) with (stdout w) in H1.
  change (stdout (with_token t2 w)) with (stdout w) in H2.
  split; [done|]. intros Hne Heq. apply Hne.
  rewrite H1, H2 in Heq. apply (inj (app (stdout w))) in Heq.
  assert (Hs : ∀ a b : string, [a] = [b] → a = b) by (intros; congruence).
  apply Hs in Heq.
  apply (inj (String.app "Cloned repo from ")) in Heq.
  apply string_app_inj_suffix in Heq. by apply repo_url_of_inj in Heq.
Qed.

Lemma clone_repo_prints_token_witness :
  stdout (final (clone_repo (with_token "tok" Fixture.fresh)))
  = ["Cloned repo from https://tok@github.com/linhbn123/aiw4.git to /tmp/aiw4"]
  ∧ stdout (final (clone_repo (with_token "tok" Fixture.fresh)))
    ≠ stdout (final (clone_repo (with_token "kot" Fixture.fresh))).
Proof.
  assert (H := clone_repo_prints_token Fixture.fresh
                 (final (clone_repo (with_token "tok" Fixture.fresh)))
                 (final (clone_repo (with_token "kot" Fixture.fresh)))
                 "tok" "kot" PNone PNone).
  destruct H as [H1 H2]; [vm_compute; reflexivity..|].
  split.
  - rewrite H1. vm_compute. reflexivity.
  - apply H2. discriminate.
Defined.

(* ===================================================================== *)
(** ** 12. run_autopep8 *)
(* ===================================================================== *)

Section RunAutopep8.

Variable fmt : Formatter.

Lemma subprocess_run_autopep8 (file : string) (w : World) :
  autopep8 w = Some fmt →
  subprocess_run (argv_of file) w
  = Ok (format_one fmt file w).1 (format_one fmt file w).2.
Proof.
  intros Ht. unfold subprocess_run, argv_of, format_one.
  rewrite decide_True by done.
  unfold bind, gets, os_getcwd, modify, log, ret. rewrite Ht. simpl.
  destruct (read_file (cwd w) file w); reflexivity.
Qed.

Lemma format_one_frame (file : string) (w : World) :
  autopep8 (format_one fmt file w).2 = autopep8 w
  ∧ cwd (format_one fmt file w).2 = cwd w
  ∧ ∃ rc, trace (format_one fmt file w).2 = trace w ++ [EvSpawn (argv_of file) rc].
Proof.
  unfold format_one. destruct (read_file (cwd w) file w); simpl; eauto.
Qed.

(** The loop runs to its end: one formatter run per file, in order, and
    the function returns None. *)
Lemma run_autopep8_trace (files : list string) :
  ∀ w, autopep8 w = Some fmt →
  ∃ w' evs,
    run_autopep8 files w = Ok PNone w'
    ∧ autopep8 w' = Some fmt
    ∧ trace w' = trace w ++ evs
    ∧ formatted_paths evs = files
    ∧ length evs = length files.
Proof.
  induction files as [|file rest IH]; intros w Ht.
  - exists w, []. simpl. by rewrite app_nil_r.
  - cbn [run_autopep8]. unfold bind. fold (argv_of file).
    rewrite subprocess_run_autopep8 by done.
    destruct (format_one_frame file w) as (Ha & _ & rc & Htr).
    destruct (IH (format_one fmt file w).2) as (w' & evs & Hr & Ha' & Htr' & Hp & Hl).
    { by rewrite Ha. }
    exists w', (EvSpawn (argv_of file) rc :: evs). rewrite Hr.
    repeat split; [done| |simpl; by rewrite Hp|simpl; by rewrite Hl].
    rewrite Htr', Htr. by rewrite <- (assoc_L (++)).
Qed.

End RunAutopep8.

Lemma emitted_app {A} (w w' : World) (r : result A) (evs : list Event) :
  final r = w' → trace w' = trace w ++ evs → emitted w r = evs.
Proof. intros <- H. unfold emitted. rewrite H. apply drop_app_length. Qed.

(** C2, as the code has it: when the formatter can be started, run_autopep8
    runs it once on each of the N files, in the order given, whatever exit
    status any run ends with, and then returns None; it keeps no per-file
    result. *)
Theorem run_autopep8_processes_every_file (fmt : Formatter) (files : list string) (w : World) :
  autopep8 w = Some fmt →
  (∃ w', run_autopep8 files w = Ok PNone w')
  ∧ formatted_paths (emitted w (run_autopep8 files w)) = files
  ∧ length (emitted w (run_autopep8 files w)) = length files.
Proof.
  intros Ht.
  destruct (run_autopep8_trace fmt files w Ht) as (w' & evs & Hr & _ & Htr & Hp & Hl).
  split; [eauto|].
  rewrite (emitted_app w w' _ evs); [done| |done]. by rewrite Hr.
Qed.

Lemma run_autopep8_processes_every_file_witness :
  (∃ w', run_autopep8 ["a.py"; "b.txt"; "c.py"]
           (Fixture.checkout_on "feature" (Some Fixture.picky)) = Ok PNone w')
  ∧ emitted (Fixture.checkout_on "feature" (Some Fixture.picky))
      (run_autopep8 ["a.py"; "b.txt"; "c.py"]
         (Fixture.checkout_on "feature" (Some Fixture.picky)))
    = [EvSpawn (argv_of "a.py") 1; EvSpawn (argv_of "b.txt") 0;
       EvSpawn (argv_of "c.py") 0].
Proof.
  split.
  - refine (proj1 (run_autopep8_processes_every_file Fixture.picky
                     ["a.py"; "b.txt"; "c.py"]
                     (Fixture.checkout_on "feature" (Some Fixture.picky)) _)).
    reflexivity.
  - vm_compute. reflexivity.
Defined.

(** C2, counterexample: the formatter fails on a.py (exit status 1) and is
    still run on c.py, but what run_autopep8 returns is None, not an
    aggregate with one entry per file. *)
Lemma run_autopep8_returns_no_aggregate :
  ∃ w',
    run_autopep8 ["a.py"; "c.py"] (Fixture.checkout_on "feature" (Some Fixture.picky))
    = Ok PNone w'
    ∧ trace w' = [EvSpawn (argv_of "a.py") 1; EvSpawn (argv_of "c.py") 0]
    ∧ ¬ has_entries PNone 2.
Proof.
  eexists. split; [vm_compute; reflexivity|]. split; [reflexivity|].
  intros (l & Hl & _). discriminate Hl.
Qed.

(** C7, as the code has it: run_autopep8 consults no filter and does not
    look whether a file exists.  The events it adds to the trace are
    formatter runs and nothing else, one for each path of the list it is
    given, in the order of the list: the sequence of paths the formatter
    was run on is the list itself.  On the empty list nothing is run, None
    is returned, and the world, hence the working tree, is left as it
    is. *)
Theorem run_autopep8_formats_what_it_is_given (fmt : Formatter) (files : list string) (w : World) :
  autopep8 w = Some fmt →
  run_autopep8 [] w = Ok PNone w
  ∧ formatted_paths (emitted w (run_autopep8 files w)) = files
  ∧ length (emitted w (run_autopep8 files w)) = length files
  ∧ ∀ matches, formatFiles_selection matches w files
               `sublist_of` formatted_paths (emitted w (run_autopep8 files w)).
Proof.
  intros Ht. split; [reflexivity|].
  destruct (run_autopep8_trace fmt files w Ht) as (w' & evs & Hr & _ & Htr & Hp & Hl).
  rewrite (emitted_app w w' _ evs); [| by rewrite Hr | done].
  split; [done|]. split; [done|].
  intros matches. rewrite Hp. unfold formatFiles_selection. apply sublist_filter.
Qed.

Lemma run_autopep8_formats_what_it_is_given_witness :
  run_autopep8 [] (Fixture.checkout_on "feature" (Some Fixture.tidy))
  = Ok PNone (Fixture.checkout_on "feature" (Some Fixture.tidy))
  ∧ formatted_paths
      (emitted (Fixture.checkout_on "feature" (Some Fixture.tidy))
         (run_autopep8 ["b.txt"; "missing.txt"; "a.py"]
            (Fixture.checkout_on "feature" (Some Fixture.tidy))))
    = ["b.txt"; "missing.txt"; "a.py"]
  ∧ formatFiles_selection is_py (Fixture.checkout_on "feature" (Some Fixture.tidy))
      ["b.txt"; "missing.txt"; "a.py"]
    = ["a.py"].
Proof.
  destruct (run_autopep8_formats_what_it_is_given Fixture.tidy
              ["b.txt"; "missing.txt"; "a.py"]
              (Fixture.checkout_on "feature" (Some Fixture.tidy))) as (H1 & H2 & _).
  - reflexivity.
  - split; [exact H1|]. split; [exact H2|]. vm_compute. reflexivity.
Defined.

(** C7, counterexample: the change set holds b.txt alone and the filter
    keeps .py files, so the selection of the specification is empty; yet
    run_autopep8 runs the formatter on b.txt, the clean working tree
    becomes dirty, and the value returned is None, not an empty list. *)
Lemma run_autopep8_ignores_filter :
  let w := Fixture.checkout_on "feature" (Some Fixture.tidy) in
  formatFiles_selection is_py w ["b.txt"] = []
  ∧ (∃ w0, has_changes w = Ok (PBool false) w0)
  ∧ ∃ w',
      run_autopep8 ["b.txt"] w = Ok PNone w'
      ∧ formatted_paths (trace w') = ["b.txt"]
      ∧ (∃ w'', has_changes w' = Ok (PBool true) w'')
      ∧ PNone ≠ PList [].
Proof.
  split; [vm_compute; reflexivity|].
  split; [eexists; vm_compute; reflexivity|].
  eexists. split; [vm_compute; reflexivity|].
  split; [vm_compute; reflexivity|].
  split; [eexists; vm_compute; reflexivity|discriminate].
Qed.

(* ===================================================================== *)
(** ** 13. checkout_source_branch *)
(* ===================================================================== *)

Section Sync.

Implicit Types (w : World) (r : Repo) (p b : string).

Lemma is_ancestor_refl objs c : Git.is_ancestor objs c c = true.
Proof.
  unfold Git.is_ancestor. destruct (length objs); simpl; by rewrite decide_True.
Qed.

Lemma open_ok p w r w' :
  Git.open p w = Ok r w' → fs w !! p = Some (Checkout r) ∧ w' = w.
Proof.
  unfold Git.open. destruct (fs w !! p) as [[f|r0]|]; intros H; by simplify_eq.
Qed.

Lemma open_checkout p w r :
  fs w !! p = Some (Checkout r) → Git.open p w = Ok r w.
Proof. intros H. unfold Git.open. by rewrite H. Qed.

(** A successful switch leaves the checkout on the branch asked for. *)
Lemma switch_to_ok p r b c w w' :
  Git.switch_to p r b c w = Ok tt w' →
  ∃ r', w' = set_fs (<[p := Checkout r']> (fs w)) w
        ∧ HEAD r' = Sym b
        ∧ heads r' = <[b := c]> (heads r)
        ∧ tracking r' = tracking r
        ∧ origin r' = origin r.
Proof.
  unfold Git.switch_to, bind, gets, Git.store, modify, raise. simpl.
  destruct (Git.switch_safe _ _ _ _); intros H; [|done].
  injection H as <-. eexists. split; [reflexivity|]. simpl. done.
Qed.

Lemma checkout_ok p b w w' :
  Git.checkout p (Some b) w = Ok tt w' →
  ∃ r r' c,
    fs w !! p = Some (Checkout r)
    ∧ w' = set_fs (<[p := Checkout r']> (fs w)) (emit (EvCheckout (Some b)) w)
    ∧ HEAD r' = Sym b
    ∧ heads r' = <[b := c]> (heads r)
    ∧ (∀ c', heads r !! b = Some c' → c' = c)
    ∧ tracking r' = tracking r
    ∧ origin r' = origin r.
Proof.
  unfold Git.checkout, bind, log, modify. simpl.
  destruct (Git.open p (emit (EvCheckout (Some b)) w)) as [r w1|] eqn:Ho; [|done].
  apply open_ok in Ho as [Hfs ->]. simpl in Hfs.
  intros H.
  assert (∃ c, Git.switch_to p r b c (emit (EvCheckout (Some b)) w) = Ok tt w'
               ∧ ∀ c', heads r !! b = Some c' → c' = c)
    as (c & Hs & Hc).
  { destruct (heads r !! b) as [c|].
    - exists c. split; [done|]. by intros ? [= ->].
    - destruct (tracking r !! b) as [c|]; [|done]. exists c. by split. }
  apply switch_to_ok in Hs as (r' & -> & ? & ? & ? & ?).
  exists r, r', c. done.
Qed.

(** A successful pull: the current branch ends at a commit that contains
    the tip of its remote branch; the other branches stay. *)
Lemma pull_ok p w w' :
  Git.pull p w = Ok tt w' →
  ∃ r r' b url rm rc m,
    fs w !! p = Some (Checkout r)
    ∧ HEAD r = Sym b
    ∧ origin r = Some url
    ∧ remotes w !! url = Some rm
    ∧ r_heads rm !! b = Some rc
    ∧ w' = set_fs (<[p := Checkout r']> (fs w)) (emit (EvFetch url) (emit EvPull w))
    ∧ HEAD r' = Sym b
    ∧ origin r' = Some url
    ∧ heads r' !! b = Some m
    ∧ Git.is_ancestor (objects w) rc m = true
    ∧ (∀ lc, heads r !! b = Some lc → Git.is_ancestor (objects w) lc m = true)
    ∧ (∀ b', b' ≠ b → heads r' !! b' = heads r !! b').
Proof.
  unfold Git.pull, bind, log, modify. simpl.
  destruct (Git.open p (emit EvPull w)) as [r w1|] eqn:Ho; [|done].
  apply open_ok in Ho as [Hfs ->]. simpl in Hfs.
  destruct (HEAD r) as [b|] eqn:Hh; [|done].
  destruct (origin r) as [url|] eqn:Hor; [|done].
  unfold gets, Git.store, modify, raise, ret. simpl. wsimpl.
  destruct (remotes w !! url) as [rm|] eqn:Hrm; [|done].
  destruct (r_heads rm !! b) as [rc|] eqn:Hrc; [|done].
  set (r1 := set_tracking (r_heads rm ∪ tracking r) r).
  assert (Hsw : ∀ w0, Git.switch_to p r1 b rc
             (set_fs (<[p:=Checkout r1]> (fs w)) (emit (EvFetch url) (emit EvPull w))) = Ok tt w0 →
     ∃ r', w0 = set_fs (<[p := Checkout r']> (fs w)) (emit (EvFetch url) (emit EvPull w))
        ∧ HEAD r' = Sym b ∧ origin r' = Some url ∧ heads r' !! b = Some rc
        ∧ (∀ b', b' ≠ b → heads r' !! b' = heads r !! b')).
  { intros w0 Hs. apply switch_to_ok in Hs as (r' & -> & ? & Hhd & ? & Ho').
    exists r'. split.
    { unfold set_fs. simpl. by rewrite insert_insert_eq. }
    split; [done|]. split; [by rewrite Ho'|].
    rewrite Hhd. split; [by rewrite lookup_insert_eq|].
    intros b' Hne. by rewrite lookup_insert_ne. }
  destruct (heads r !! b) as [lc|] eqn:Hlc; wsimpl.
  - destruct (Git.is_ancestor (objects w) rc lc) eqn:Hup.
    + intros H. injection H as <-.
      exists r, r1, b, url, rm, rc, lc. repeat split; try done.
      intros ? ?. simplify_eq. apply is_ancestor_refl.
    + destruct (Git.is_ancestor (objects w) lc rc) eqn:Hff; [|done].
      intros H. apply Hsw in H as (r' & -> & ? & ? & ? & ?).
      exists r, r', b, url, rm, rc, rc. repeat split; try done.
      * apply is_ancestor_refl.
      * intros ? ?. by simplify_eq.
  - intros H. apply Hsw in H as (r' & -> & ? & ? & ? & ?).
    exists r, r', b, url, rm, rc, rc. repeat split; try done.
    + apply is_ancestor_refl.
    + intros ? ?. simplify_eq.
Qed.

End Sync.



(* ===================================================================== *)
(** ** 14. commit_and_push *)
(* ===================================================================== *)

Section Publish.

Implicit Types (w : World) (r : Repo) (d a : string).

Lemma actions_app t1 t2 : actions (t1 ++ t2) = actions t1 ++ actions t2.
Proof. apply filter_app. Qed.

Lemma add_update_eq d w r :
  fs w !! d = Some (Checkout r) →
  Git.add_update d w
  = Ok tt (set_fs (<[d := Checkout (set_index (Git.staged (index r) (worktree r)) r)]> (fs w))
             (emit EvAddUpdate w)).
Proof.
  intros H. unfold Git.add_update, bind, log, modify.
  rewrite (open_checkout _ _ r) by done. reflexivity.
Qed.

Lemma index_commit_eq d msg w r a :
  fs w !! d = Some (Checkout r) →
  HEAD r = Sym a →
  Git.index_commit d msg w
  = Ok (length (objects w))
       (set_fs (<[d := Checkout (set_heads (<[a := length (objects w)]> (heads r)) r)]> (fs w))
          (emit (EvCommit (length (objects w)))
             (set_objects (objects w ++ [mkCommit (heads r !! a) (index r) msg]) w))).
Proof.
  intros H Hh. unfold Git.index_commit, bind.
  rewrite (open_checkout _ _ r) by done.
  unfold gets, modify, log, Git.store, ret, Git.head_commit. rewrite Hh. reflexivity.
Qed.

(** What a push leaves behind: one push event, the object store and the
    local branches as they were, and at the remote either the pushed tip
    under the destination name, or, when the remote branch is not an
    ancestor of it, the remote as it was. *)
Lemma push_ok d url src dst w r rm lc :
  fs w !! d = Some (Checkout r) →
  remotes w !! url = Some rm →
  heads r !! src = Some lc →
  ∃ infos w' r' rm',
    Git.push d url src dst w = Ok infos w'
    ∧ trace w' = trace w ++ [EvPush url src dst]
    ∧ objects w' = objects w
    ∧ fs w' = <[d := Checkout r']> (fs w)
    ∧ heads r' = heads r ∧ HEAD r' = HEAD r
    ∧ index r' = index r ∧ worktree r' = worktree r
    ∧ remotes w' !! url = Some rm'
    ∧ (r_heads rm' !! dst = Some lc
       ∨ (rm' = rm ∧ ∃ rc, r_heads rm !! dst = Some rc
                           ∧ Git.is_ancestor (objects w) rc lc = false)).
Proof.
  intros Hfs Hrm Hlc. unfold Git.push, bind, log, modify.
  rewrite (open_checkout _ _ r) by done.
  unfold gets. wsimpl. rewrite Hrm, Hlc.
  assert (Hid : fs w = <[d := Checkout r]> (fs w)) by (by rewrite insert_id).
  destruct (r_heads rm !! dst) as [rc|] eqn:Hrc.
  - destruct (decide (rc = lc)) as [->|Hne]; [|destruct (Git.is_ancestor (objects w) rc lc) eqn:Ha].
    + eexists _, _, r, rm. split; [reflexivity|]. wsimpl. repeat split; try done. by left.
    + eexists _, _, _, _. split; [reflexivity|]. unfold Git.store, modify, bind. wsimpl.
      repeat split; try done; [by rewrite lookup_insert_eq|].
      left. simpl. by rewrite lookup_insert_eq.
    + eexists _, _, r, rm. split; [reflexivity|]. wsimpl. repeat split; try done.
      right. eauto.
  - eexists _, _, _, _. split; [reflexivity|]. unfold Git.store, modify, bind. wsimpl.
    repeat split; try done; [by rewrite lookup_insert_eq|].
    left. simpl. by rewrite lookup_insert_eq.
Qed.

(** Printing the push result only prints. *)
Lemma print_push_result_ok infos :
  ∀ w, ∃ w' evs,
    print_push_result infos w = Ok tt w'
    ∧ trace w' = trace w ++ evs ∧ actions evs = []
    ∧ fs w' = fs w ∧ objects w' = objects w ∧ remotes w' = remotes w.
Proof.
  induction infos as [|i rest IH]; intros w.
  - exists w, []. simpl. by rewrite app_nil_r.
  - cbn [print_push_result]. unfold bind, print, log, modify.
    match goal with
    | |- context [print_push_result rest ?x] =>
        destruct (IH x) as (w' & evs & Hr & Htr & Hact & Hfs & Hob & Hrem)
    end.
    eexists w', (_ :: _ :: _ :: _ :: evs). rewrite Hr. split; [done|].
    revert Htr Hfs Hob Hrem. wsimpl. intros -> -> -> ->.
    rewrite <- !(assoc_L (++)). simpl. repeat split; try done.
Qed.

End Publish.

(** The whole of commit_and_push on a checkout that is on a branch, has an
    origin that answers, and has a local branch of the name to push. *)
Lemma commit_and_push_runs (msg : string) (w : World) (r : Repo)
    (a url : string) (rm : Remote) (lc : nat) :
  fs w !! cwd w = Some (Checkout r) →
  HEAD r = Sym a →
  origin r = Some url →
  remotes w !! url = Some rm →
  <[a := length (objects w)]> (heads r) !! fstr (environ w !! "SOURCE_BRANCH") = Some lc →
  ∃ w' r' rm',
    commit_and_push msg w = Ok PNone w'
    ∧ actions (emitted w (commit_and_push msg w))
      = [EvAddUpdate; EvCommit (length (objects w));
         EvPush url (fstr (environ w !! "SOURCE_BRANCH"))
                    (fstr (environ w !! "SOURCE_BRANCH"))]
    ∧ objects w'
      = objects w ++ [mkCommit (heads r !! a) (Git.staged (index r) (worktree r)) msg]
    ∧ fs w' !! cwd w = Some (Checkout r')
    ∧ heads r' = <[a := length (objects w)]> (heads r)
    ∧ HEAD r' = Sym a
    ∧ index r' = Git.staged (index r) (worktree r)
    ∧ worktree r' = worktree r
    ∧ remotes w' !! url = Some rm'
    ∧ (r_heads rm' !! fstr (environ w !! "SOURCE_BRANCH") = Some lc
       ∨ (rm' = rm
          ∧ ∃ rc, r_heads rm !! fstr (environ w !! "SOURCE_BRANCH") = Some rc
                  ∧ Git.is_ancestor (objects w') rc lc = false)).
Proof.
  intros Hfs Hh Hor Hrm Hlc.
  set (bn := fstr (environ w !! "SOURCE_BRANCH")) in *.
  set (id := length (objects w)) in *.
  set (idx := Git.staged (index r) (worktree r)).
  pose (r1 := set_index idx r).
  pose (r2 := set_heads (<[a := id]> (heads r1)) r1).
  pose (w1 := emit (Stdout ("Active branch: " +:+ a)) w).
  pose (w2 := set_fs (<[cwd w := Checkout r1]> (fs w1)) (emit EvAddUpdate w1)).
  pose (w3 := set_fs (<[cwd w := Checkout r2]> (fs w2))
                (emit (EvCommit id)
                   (set_objects (objects w ++ [mkCommit (heads r !! a) idx msg]) w2))).
  pose (w4 := emit (Stdout ("Pushing changes to remote branch '" +:+ bn +:+ "'")) w3).
  assert (H3 : fs w3 !! cwd w = Some (Checkout r2)).
  { subst w3. wsimpl. by rewrite lookup_insert_eq. }
  destruct (push_ok (cwd w) url bn bn w4 r2 rm lc)
    as (infos & w5 & r' & rm' & Hp & Htr5 & Hob5 & Hfs5 & Hhd & Hhead & Hix & Hwt & Hrm' & Hcase);
    [done..|].
  destruct (print_push_result_ok infos (emit (Stdout "Push result:") w5))
    as (w6 & evs & Hpr & Htr6 & Hact & Hfs6 & Hob6 & Hrem6).
  assert (Hrun : commit_and_push msg w = Ok PNone w6).
  { unfold commit_and_push, bind, getenv, os_getcwd, gets.
    rewrite (open_checkout _ _ r) by done.
    unfold Git.active_branch, bind. rewrite (open_checkout _ _ r) by done.
    rewrite Hh. unfold ret, print, log, modify. fold w1.
    rewrite (add_update_eq _ _ r) by done. fold idx r1 w2.
    rewrite (index_commit_eq _ msg w2 r1 a);
      [|subst w2; wsimpl; by rewrite lookup_insert_eq|done].
    change (objects w2) with (objects w). change (heads r1 !! a) with (heads r !! a).
    change (index r1) with idx. fold id r2 w3.
    unfold Git.remote_origin, bind. rewrite (open_checkout _ _ r2) by done.
    change (origin r2) with (origin r). rewrite Hor. unfold ret.
    fold bn w4. rewrite Hp. by rewrite Hpr. }
  exists w6, r', rm'. split; [done|].
  unfold emitted. rewrite Hrun. wsimpl.
  rewrite Hob6, Hfs6, Hrem6, Htr6. wsimpl. rewrite Htr5, Hob5, Hfs5. subst w4 w3 w2 w1. wsimpl.
  rewrite lookup_insert_eq.
  rewrite <- !(assoc_L (++)). rewrite drop_app_length.
  repeat split; try done.
  - rewrite !actions_app, Hact. reflexivity.
  - rewrite Hhead. exact Hh.
Qed.

Lemma staged_lookup (idx wt : gmap string string) (p : string) :
  Git.staged idx wt !! p = idx !! p ≫= λ _, wt !! p.
Proof. unfold Git.staged. by rewrite map_lookup_imap. Qed.

(** On a clean checkout, staging changes nothing. *)
Lemma staged_clean objs r :
  Git.is_dirty objs r = false →
  Git.staged (index r) (worktree r) = Git.tree_of objs (Git.head_commit r).
Proof.
  unfold Git.is_dirty. intros H. apply orb_false_elim in H as [H1 H2].
  apply bool_decide_eq_false in H1. apply negb_false_iff in H2.
  apply bool_decide_eq_true in H2.
  assert (index r = Git.tree_of objs (Git.head_commit r)) as <-.
  { destruct (decide (index r = Git.tree_of objs (Git.head_commit r))); [done|].
    by destruct H1. }
  apply map_eq. intros p. rewrite staged_lookup.
  destruct (index r !! p) as [c|] eqn:E; [|done]. simpl. by apply H2.
Qed.

(** A commit appended to a well-formed store is no ancestor of an older one. *)
Lemma reach_new objs k fuel :
  wf_store objs →
  ∀ c, c < length objs → Git.reach (objs ++ [k]) fuel (length objs) c = false.
Proof.
  intros Hwf. induction fuel as [|n IH]; intros c Hc; simpl.
  - rewrite decide_False by lia. done.
  - rewrite decide_False by lia.
    rewrite lookup_app_l by done.
    destruct (objs !! c) as [k'|] eqn:E; [|done].
    destruct (parent k') as [q|] eqn:Eq; [|done].
    apply IH. specialize (Hwf c k' q E Eq). lia.
Qed.

(** C1. On a checkout that is on a branch, with an origin that answers and
    a local branch named by SOURCE_BRANCH, commit_and_push returns, having
    done exactly three things in this order.  It staged the tracked paths:
    the new index maps every path of the old index to what the working tree
    holds for it, and no other path, so untracked files stay out.  It
    created one commit, on top of HEAD, with the new index as its tree and
    the given message.  It pushed the branch named by SOURCE_BRANCH to the
    ref of the same name, after which the remote holds the branch's tip
    under that name, unless the remote's branch is not an ancestor of it. *)
Theorem commit_and_push_publishes (msg : string) (w : World) (r : Repo)
    (a b url : string) (rm : Remote) (lc : nat) :
  fs w !! cwd w = Some (Checkout r) →
  HEAD r = Sym a →
  environ w !! "SOURCE_BRANCH" = Some b →
  origin r = Some url →
  remotes w !! url = Some rm →
  <[a := length (objects w)]> (heads r) !! b = Some lc →
  ∃ w' r' rm',
    commit_and_push msg w = Ok PNone w'
    ∧ actions (emitted w (commit_and_push msg w))
      = [EvAddUpdate; EvCommit (length (objects w)); EvPush url b b]
    ∧ fs w' !! cwd w = Some (Checkout r')
    ∧ (∀ p, index r' !! p = index r !! p ≫= λ _, worktree r !! p)
    ∧ (∀ p, index r !! p = None → index r' !! p = None)
    ∧ worktree r' = worktree r
    ∧ objects w' = objects w ++ [mkCommit (Git.head_commit r) (index r') msg]
    ∧ remotes w' !! url = Some rm'
    ∧ (r_heads rm' !! b = Some lc
       ∨ (rm' = rm ∧ ∃ rc, r_heads rm !! b = Some rc
                           ∧ Git.is_ancestor (objects w') rc lc = false)).
Proof.
  intros Hfs Hh Hb Hor Hrm Hlc.
  destruct (commit_and_push_runs msg w r a url rm lc)
    as (w' & r' & rm' & Hrun & Hact & Hob & Hfs' & _ & _ & Hix & Hwt & Hrm' & Hcase);
    try done.
  { by rewrite Hb. }
  rewrite Hb in Hact, Hcase. simpl in Hact, Hcase.
  exists w', r', rm'. rewrite Hix.
  repeat split; try done.
  - intros p. apply staged_lookup.
  - intros p Hp. rewrite staged_lookup, Hp. done.
  - rewrite Hob. unfold Git.head_commit. by rewrite Hh.
Qed.

Lemma commit_and_push_publishes_witness :
  ∃ w' r' rm',
    commit_and_push "Beautify"
      (final (run_autopep8 ["a.py"] (Fixture.checkout_on "feature" (Some Fixture.tidy))))
    = Ok PNone w'
    ∧ fs w' !! "/tmp/aiw4" = Some (Checkout r')
    ∧ index r' !! "a.py" = Some "x=1"
    ∧ objects w' = Fixture.objs ++ [mkCommit (Some 1) (index r') "Beautify"]
    ∧ remotes w' !! Fixture.url = Some rm'
    ∧ r_heads rm' !! "feature" = Some 2.
Proof.
  destruct (commit_and_push_publishes "Beautify"
              (final (run_autopep8 ["a.py"] (Fixture.checkout_on "feature" (Some Fixture.tidy))))
              (mkRepo {[ "main" := 0; "feature" := 1 ]} {[ "main" := 0; "feature" := 1 ]}
                      (Sym "feature") Fixture.tree_feature
                      (<["a.py" := "x=1"]> Fixture.tree_feature) (Some Fixture.url))
              "feature" "feature" Fixture.url Fixture.hosted 2)
    as (w' & r' & rm' & Hrun & _ & Hfs & Hix & _ & _ & Hob & Hrm & Hcase);
    [vm_compute; reflexivity..|].
  exists w', r', rm'. split; [exact Hrun|]. split; [exact Hfs|].
  split; [rewrite Hix; vm_compute; reflexivity|].
  split; [exact Hob|]. split; [exact Hrm|].
  destruct Hcase as [H|(-> & rc & Hrc & Hanc)]; [exact H|].
  vm_compute in Hrc. injection Hrc as <-.
  rewrite Hob in Hanc. vm_compute in Hanc. discriminate Hanc.
Defined.

(** C8, as the code has it: with nothing to stage (a clean checkout),
    commit_and_push does not fail.  It creates a commit on top of HEAD whose
    tree is the tree of HEAD, an empty commit, with the given message, and
    goes on to push. *)
Theorem commit_and_push_commits_clean_tree (msg : string) (w : World) (r : Repo)
    (a url : string) (rm : Remote) (lc : nat) :
  fs w !! cwd w = Some (Checkout r) →
  Git.is_dirty (objects w) r = false →
  HEAD r = Sym a →
  origin r = Some url →
  remotes w !! url = Some rm →
  <[a := length (objects w)]> (heads r) !! fstr (environ w !! "SOURCE_BRANCH") = Some lc →
  ∃ w',
    commit_and_push msg w = Ok PNone w'
    ∧ objects w'
      = objects w ++ [mkCommit (Git.head_commit r)
                               (Git.tree_of (objects w) (Git.head_commit r)) msg]
    ∧ actions (emitted w (commit_and_push msg w))
      = [EvAddUpdate; EvCommit (length (objects w));
         EvPush url (fstr (environ w !! "SOURCE_BRANCH"))
                    (fstr (environ w !! "SOURCE_BRANCH"))].
Proof.
  intros Hfs Hclean Hh Hor Hrm Hlc.
  destruct (commit_and_push_runs msg w r a url rm lc)
    as (w' & r' & rm' & Hrun & Hact & Hob & _); try done.
  exists w'. split; [done|]. split; [|done].
  rewrite Hob. rewrite (staged_clean _ _ Hclean).
  unfold Git.head_commit. by rewrite Hh.
Qed.

Lemma commit_and_push_commits_clean_tree_witness :
  ∃ w',
    commit_and_push "Beautify" (Fixture.checkout_on "main" None) = Ok PNone w'
    ∧ objects w' = Fixture.objs ++ [mkCommit (Some 0) Fixture.tree_main "Beautify"].
Proof.
  destruct (commit_and_push_commits_clean_tree "Beautify"
              (Fixture.checkout_on "main" None)
              (mkRepo {[ "main" := 0; "feature" := 1 ]} {[ "main" := 0; "feature" := 1 ]}
                      (Sym "main") Fixture.tree_main Fixture.tree_main (Some Fixture.url))
              "main" Fixture.url Fixture.hosted 1)
    as (w' & Hrun & Hob & _); [vm_compute; reflexivity..|].
  exists w'. split; [exact Hrun|]. rewrite Hob. vm_compute. reflexivity.
Defined.

(** C8, counterexample: the checkout is clean, has_changes answers False,
    and commit_and_push returns normally with a third commit in the store
    whose tree is the tree of its parent. *)
Lemma commit_and_push_makes_empty_commit :
  let w := Fixture.checkout_on "feature" None in
  (∃ w0, has_changes w = Ok (PBool false) w0)
  ∧ ∃ w',
      commit_and_push "Beautify" w = Ok PNone w'
      ∧ objects w' = Fixture.objs ++ [mkCommit (Some 1) Fixture.tree_feature "Beautify"]
      ∧ Git.tree_of (objects w') (Some 2) = Git.tree_of (objects w') (Some 1).
Proof.
  split; [eexists; vm_compute; reflexivity|].
  eexists. split; [vm_compute; reflexivity|].
  split; vm_compute; reflexivity.
Qed.

(** C9. commit_and_push commits on the branch HEAD names and pushes the
    branch SOURCE_BRANCH names.  When the two differ, the new commit becomes
    the tip of the active branch, the branch named by SOURCE_BRANCH stays
    where it was, the push is of that branch to the ref of the same name,
    and the new commit is not among the ancestors of the tip that is
    pushed. *)
Theorem commit_and_push_commits_on_head (msg : string) (w : World) (r : Repo)
    (a b url : string) (rm : Remote) (cb : nat) :
  fs w !! cwd w = Some (Checkout r) →
  HEAD r = Sym a →
  environ w !! "SOURCE_BRANCH" = Some b →
  origin r = Some url →
  remotes w !! url = Some rm →
  a ≠ b →
  heads r !! b = Some cb →
  cb < length (objects w) →
  wf_store (objects w) →
  ∃ w' r',
    commit_and_push msg w = Ok PNone w'
    ∧ fs w' !! cwd w = Some (Checkout r')
    ∧ HEAD r' = Sym a
    ∧ heads r' !! a = Some (length (objects w))
    ∧ heads r' !! b = Some cb
    ∧ actions (emitted w (commit_and_push msg w))
      = [EvAddUpdate; EvCommit (length (objects w)); EvPush url b b]
    ∧ Git.is_ancestor (objects w') (length (objects w)) cb = false.
Proof.
  intros Hfs Hh Hb Hor Hrm Hne Hcb Hlt Hwf.
  destruct (commit_and_push_runs msg w r a url rm cb)
    as (w' & r' & rm' & Hrun & Hact & Hob & Hfs' & Hhd & Hhead & _); try done.
  { rewrite Hb. simpl. by rewrite lookup_insert_ne. }
  rewrite Hb in Hact. simpl in Hact.
  exists w', r'. rewrite Hhd, Hob.
  repeat split; try done.
  - by rewrite lookup_insert_eq.
  - by rewrite lookup_insert_ne.
  - unfold Git.is_ancestor. by apply reach_new.
Qed.

Lemma commit_and_push_commits_on_head_witness :
  ∃ w' r',
    commit_and_push "Beautify" (Fixture.checkout_on "main" None) = Ok PNone w'
    ∧ fs w' !! "/tmp/aiw4" = Some (Checkout r')
    ∧ heads r' !! "main" = Some 2
    ∧ heads r' !! "feature" = Some 1
    ∧ actions (emitted (Fixture.checkout_on "main" None)
                 (commit_and_push "Beautify" (Fixture.checkout_on "main" None)))
      = [EvAddUpdate; EvCommit 2; EvPush Fixture.url "feature" "feature"].
Proof.
  destruct (commit_and_push_commits_on_head "Beautify"
              (Fixture.checkout_on "main" None)
              (mkRepo {[ "main" := 0; "feature" := 1 ]} {[ "main" := 0; "feature" := 1 ]}
                      (Sym "main") Fixture.tree_main Fixture.tree_main (Some Fixture.url))
              "main" "feature" Fixture.url Fixture.hosted 1)
    as (w' & r' & Hrun & Hfs & _ & Ha & Hb & Hact & _).
  - vm_compute. reflexivity.
  - reflexivity.
  - vm_compute. reflexivity.
  - reflexivity.
  - vm_compute. reflexivity.
  - discriminate.
  - vm_compute. reflexivity.
  - vm_compute. lia.
  - intros i k p Hi Hp. destruct i as [|[|i]]; simpl in Hi.
    + injection Hi as <-. discriminate Hp.
    + injection Hi as <-. injection Hp as <-. lia.
    + discriminate Hi.
  - exists w', r'. split; [exact Hrun|]. split; [exact Hfs|].
    split; [exact Ha|]. split; [exact Hb|]. exact Hact.
Defined.

(* ===================================================================== *)
(** ** 15. The run *)
(* ===================================================================== *)

Section Run.

Variable plan : Planner.
Hypothesis plan_skips : respects_skip plan.

Lemma skip_kept_snoc steps c :
  skip_kept steps steps.*1 →
  plan steps = Some c →
  skip_kept steps (steps.*1 ++ [c]).
Proof.
  intros Hk Hp j m Hj.
  destruct (decide (j < length steps.*1)) as [Hlt|Hge].
  - rewrite lookup_app_l in Hj by done. by apply (Hk j m).
  - rewrite lookup_app_r in Hj by lia.
    destruct (j - length steps.*1) as [|n] eqn:E; [|by destruct n].
    simpl in Hj. injection Hj as ->.
    rewrite length_fmap in Hge, E.
    rewrite take_ge by lia. intros Hc. by apply (plan_skips steps m).
Qed.

Lemma skip_kept_extend steps c obs :
  skip_kept steps (steps.*1 ++ [c]) →
  skip_kept (steps ++ [(c, obs)]) (steps ++ [(c, obs)]).*1.
Proof.
  intros Hk j m Hj. rewrite fmap_app in Hj. simpl in Hj.
  assert (j < length steps + 1).
  { apply lookup_lt_Some in Hj. rewrite length_app, length_fmap in Hj. simpl in Hj. lia. }
  rewrite take_app_le by lia. by apply (Hk j m).
Qed.

Lemma agent_executor_keeps_skip (fuel : nat) :
  ∀ steps w,
    skip_kept steps steps.*1 →
    skip_kept (steps_of (agent_executor fuel plan steps w))
              (invoked (agent_executor fuel plan steps w)).
Proof.
  induction fuel as [|n IH]; intros steps w Hk; simpl; [done|].
  destruct (plan steps) as [c|] eqn:Hp; [|done].
  destruct (invoke c w) as [obs w'|e w'].
  - apply IH. apply skip_kept_extend. by apply skip_kept_snoc.
  - simpl. by apply skip_kept_snoc.
Qed.

End Run.


Lemma guarded_respects_skip : respects_skip Fixture.guarded.
Proof.
  intros steps m Hc. unfold Fixture.guarded.
  assert (Fixture.saw_clean steps = true) as ->; [|done].
  unfold Fixture.saw_clean. apply existsb_exists.
  exists (call_has_changes, PBool false). split; [|done].
  by apply list_elem_of_In.
Qed.



(* ===================================================================== *)
(** ** 16. What the tools leave alone *)
(* ===================================================================== *)

Section Keeps.

Context {A : Type} (f : World → A).

Lemma keeps_ret {B} (b : B) : keeps f (ret b).
Proof. by intros w. Qed.

Lemma keeps_raise {B} (e : exn) : keeps f (raise (A := B) e).
Proof. by intros w. Qed.

Lemma keeps_gets {B} (g : World → B) : keeps f (gets g).
Proof. by intros w. Qed.

Lemma keeps_modify (g : World → World) :
  (∀ w, f (g w) = f w) → keeps f (modify g).
Proof. intros H w. apply H. Qed.

Lemma keeps_bind {B C} (c : M B) (k : B → M C) :
  keeps f c → (∀ b, keeps f (k b)) → keeps f (bind c k).
Proof.
  intros Hc Hk w. unfold bind. specialize (Hc w).
  destruct (c w) as [b w'|e w']; simpl in *; [|done].
  by rewrite Hk.
Qed.

Lemma keeps_try_except {B} (body : M B) (handler : exn → M B) :
  keeps f body → (∀ e, keeps f (handler e)) → keeps f (try_except body handler).
Proof.
  intros Hb Hh w. unfold try_except. specialize (Hb w).
  destruct (body w) as [b w'|e w']; simpl in *; [done|].
  by rewrite Hh.
Qed.

(** [f] does not look at the trace, the file system, the object store or
    the remotes. *)
Hypothesis f_emit : ∀ e w, f (emit e w) = f w.
Hypothesis f_fs : ∀ x w, f (set_fs x w) = f w.
Hypothesis f_objects : ∀ x w, f (set_objects x w) = f w.
Hypothesis f_remotes : ∀ x w, f (set_remotes x w) = f w.

Lemma keeps_log e : keeps f (log e).
Proof. unfold log. apply keeps_modify. apply f_emit. Qed.

Lemma keeps_print l : keeps f (print l).
Proof. apply keeps_log. Qed.

Lemma keeps_open p : keeps f (Git.open p).
Proof. intros w. unfold Git.open. by repeat case_match. Qed.

Lemma keeps_store p r : keeps f (Git.store p r).
Proof. unfold Git.store. apply keeps_modify. intros. apply f_fs. Qed.

Lemma keeps_switch_to p r b c : keeps f (Git.switch_to p r b c).
Proof.
  unfold Git.switch_to. apply keeps_bind; [apply keeps_gets|intros objs].
  case_match; [apply keeps_store|apply keeps_raise].
Qed.

Lemma keeps_checkout p arg : keeps f (Git.checkout p arg).
Proof.
  unfold Git.checkout. apply keeps_bind; [apply keeps_log|intros _].
  destruct arg as [b|]; [|apply keeps_ret].
  apply keeps_bind; [apply keeps_open|intros r].
  repeat case_match; first [apply keeps_switch_to | apply keeps_raise].
Qed.

Lemma keeps_pull p : keeps f (Git.pull p).
Proof.
  unfold Git.pull. apply keeps_bind; [apply keeps_log|intros _].
  apply keeps_bind; [apply keeps_open|intros r].
  destruct (HEAD r) as [b|]; [|apply keeps_raise].
  destruct (origin r) as [url|]; [|apply keeps_raise].
  apply keeps_bind; [apply keeps_log|intros _].
  apply keeps_bind; [apply keeps_gets|intros rem].
  destruct rem as [rm|]; [|apply keeps_raise].
  apply keeps_bind; [apply keeps_store|intros _].
  apply keeps_bind; [apply keeps_gets|intros objs].
  repeat case_match;
    first [apply keeps_switch_to | apply keeps_raise | apply keeps_ret].
Qed.

Lemma keeps_active_branch p : keeps f (Git.active_branch p).
Proof.
  unfold Git.active_branch. apply keeps_bind; [apply keeps_open|intros r].
  case_match; [apply keeps_ret|apply keeps_raise].
Qed.

Lemma keeps_add_update p : keeps f (Git.add_update p).
Proof.
  unfold Git.add_update. apply keeps_bind; [apply keeps_log|intros _].
  apply keeps_bind; [apply keeps_open|intros r]. apply keeps_store.
Qed.

Lemma keeps_index_commit p msg : keeps f (Git.index_commit p msg).
Proof.
  unfold Git.index_commit. apply keeps_bind; [apply keeps_open|intros r].
  apply keeps_bind; [apply keeps_gets|intros objs].
  apply keeps_bind; [apply keeps_modify; intros; apply f_objects|intros _].
  apply keeps_bind; [apply keeps_log|intros _].
  apply keeps_bind; [apply keeps_store|intros _]. apply keeps_ret.
Qed.

Lemma keeps_remote_origin p : keeps f (Git.remote_origin p).
Proof.
  unfold Git.remote_origin. apply keeps_bind; [apply keeps_open|intros r].
  case_match; [apply keeps_ret|apply keeps_raise].
Qed.

Lemma keeps_push p url src dst : keeps f (Git.push p url src dst).
Proof.
  unfold Git.push. apply keeps_bind; [apply keeps_log|intros _].
  apply keeps_bind; [apply keeps_open|intros r].
  apply keeps_bind; [apply keeps_gets|intros rem].
  apply keeps_bind; [apply keeps_gets|intros objs].
  repeat case_match; try apply keeps_raise; try apply keeps_ret;
    (apply keeps_bind; [apply keeps_modify; intros; apply f_remotes|intros _];
     apply keeps_bind; [apply keeps_store|intros _]; apply keeps_ret).
Qed.

Lemma keeps_clone_from url p : keeps f (Git.clone_from url p).
Proof.
  unfold Git.clone_from. apply keeps_bind; [apply keeps_log|intros _].
  apply keeps_bind; [apply keeps_gets|intros occ].
  destruct occ; [apply keeps_raise|].
  apply keeps_bind; [apply keeps_gets|intros rem].
  destruct rem; [|apply keeps_raise].
  apply keeps_bind; [apply keeps_gets|intros objs]. apply keeps_store.
Qed.

Lemma keeps_subprocess_run argv : keeps f (subprocess_run argv).
Proof.
  unfold subprocess_run. repeat case_match; try apply keeps_raise.
  apply keeps_bind; [apply keeps_gets|intros tool].
  destruct tool as [fmt|]; [|apply keeps_raise].
  apply keeps_bind; [apply keeps_gets|intros dir].
  apply keeps_bind; [apply keeps_gets|intros content].
  destruct content as [c|].
  - apply keeps_bind; [apply keeps_modify; intros; apply f_fs|intros _].
    apply keeps_bind; [apply keeps_log|intros _]. apply keeps_ret.
  - apply keeps_bind; [apply keeps_log|intros _]. apply keeps_ret.
Qed.

Lemma keeps_print_push_result infos : keeps f (print_push_result infos).
Proof.
  induction infos as [|i rest IH]; [apply keeps_ret|].
  cbn [print_push_result].
  repeat (apply keeps_bind; [apply keeps_print|intros _]). exact IH.
Qed.

Lemma keeps_clone_repo : keeps f clone_repo.
Proof.
  unfold clone_repo, getenv, os_path_exists.
  apply keeps_bind; [apply keeps_gets|intros token].
  apply keeps_bind; [apply keeps_gets|intros repo_path].
  apply keeps_bind; [apply keeps_gets|intros present].
  destruct (negb present).
  - apply keeps_bind; [apply keeps_clone_from|intros _].
    apply keeps_bind; [apply keeps_print|intros _]. apply keeps_ret.
  - apply keeps_bind; [apply keeps_print|intros _]. apply keeps_ret.
Qed.

Lemma keeps_checkout_source_branch : keeps f checkout_source_branch.
Proof.
  unfold checkout_source_branch, os_getcwd, getenv.
  apply keeps_bind; [apply keeps_gets|intros dir].
  apply keeps_bind; [apply keeps_open|intros _].
  apply keeps_bind; [apply keeps_checkout|intros _].
  apply keeps_bind; [apply keeps_pull|intros _].
  apply keeps_bind; [apply keeps_gets|intros source].
  apply keeps_bind; [apply keeps_checkout|intros _].
  apply keeps_bind; [apply keeps_active_branch|intros active].
  apply keeps_bind; [apply keeps_print|intros _]. apply keeps_ret.
Qed.

Lemma keeps_get_files_from_pull_request : keeps f get_files_from_pull_request.
Proof.
  unfold get_files_from_pull_request, getenv.
  apply keeps_bind; [apply keeps_gets|intros token].
  apply keeps_bind; [apply keeps_gets|intros repo_path].
  apply keeps_bind.
  { unfold get_repo. destruct repo_path; [|apply keeps_raise].
    apply keeps_bind; [apply keeps_log|intros _].
    apply keeps_bind; [apply keeps_gets|intros g].
    destruct g; [apply keeps_ret|apply keeps_raise]. }
  intros repo.
  apply keeps_bind; [apply keeps_gets|intros number].
  apply keeps_bind.
  { unfold py_int. repeat case_match; first [apply keeps_ret|apply keeps_raise]. }
  intros n.
  apply keeps_bind.
  { unfold get_pull_files. case_match; [apply keeps_ret|apply keeps_raise]. }
  intros files. apply keeps_ret.
Qed.

Lemma keeps_run_autopep8 files : keeps f (run_autopep8 files).
Proof.
  induction files as [|file rest IH]; [apply keeps_ret|].
  cbn [run_autopep8]. apply keeps_bind; [apply keeps_subprocess_run|intros _].
  exact IH.
Qed.

Lemma keeps_has_changes : keeps f has_changes.
Proof.
  unfold has_changes, os_getcwd.
  apply keeps_bind; [apply keeps_gets|intros dir].
  apply keeps_bind; [apply keeps_open|intros r].
  apply keeps_bind; [apply keeps_gets|intros objs].
  apply keeps_bind; [apply keeps_print|intros _]. apply keeps_ret.
Qed.

Lemma keeps_commit_and_push msg : keeps f (commit_and_push msg).
Proof.
  unfold commit_and_push, os_getcwd, getenv.
  apply keeps_bind; [apply keeps_gets|intros source].
  apply keeps_bind; [apply keeps_gets|intros dir].
  apply keeps_bind; [apply keeps_open|intros _].
  apply keeps_bind; [apply keeps_active_branch|intros active].
  apply keeps_bind; [apply keeps_print|intros _].
  apply keeps_bind; [apply keeps_add_update|intros _].
  apply keeps_bind; [apply keeps_index_commit|intros _].
  apply keeps_bind; [apply keeps_remote_origin|intros url].
  apply keeps_bind; [apply keeps_print|intros _].
  apply keeps_bind; [apply keeps_push|intros push_result].
  apply keeps_bind; [apply keeps_print|intros _].
  apply keeps_bind; [apply keeps_print_push_result|intros _]. apply keeps_ret.
Qed.

(** Every tool but switch_to_local_repo_path. *)
Lemma keeps_invoke (c : ToolCall) :
  c ≠ call_switch_to_local_repo_path → keeps f (invoke c).
Proof.
  destruct c; intros Hc; simpl;
    [ apply keeps_clone_repo | done | apply keeps_checkout_source_branch
    | apply keeps_get_files_from_pull_request | apply keeps_run_autopep8
    | apply keeps_has_changes | apply keeps_commit_and_push ].
Qed.

(** switch_to_local_repo_path as well, when [f] does not look at the
    working directory either. *)
Lemma keeps_switch_to_local_repo_path :
  (∀ p w, f (set_cwd p w) = f w) → keeps f switch_to_local_repo_path.
Proof.
  intros f_cwd. unfold switch_to_local_repo_path. apply keeps_try_except.
  - apply keeps_bind.
    { intros w. unfold os_chdir. case_match; simpl; [apply f_cwd|done]. }
    intros _. apply keeps_bind; [apply keeps_print|intros _]. apply keeps_ret.
  - intros e. apply keeps_bind; [apply keeps_print|intros _]. apply keeps_ret.
Qed.

End Keeps.

(** X2. The only tool that changes the working directory is
    switch_to_local_repo_path, and it changes it to LOCAL_REPO_PATH: each
    tool call, returning or raising, leaves the working directory where it
    was or at LOCAL_REPO_PATH, and every tool other than
    switch_to_local_repo_path leaves it where it was. *)
Theorem tools_keep_working_directory (c : ToolCall) (w : World) :
  (c ≠ call_switch_to_local_repo_path → cwd (final (invoke c w)) = cwd w)
  ∧ (cwd (final (invoke c w)) = cwd w ∨ cwd (final (invoke c w)) = LOCAL_REPO_PATH).
Proof.
  assert (H : c ≠ call_switch_to_local_repo_path → cwd (final (invoke c w)) = cwd w).
  { intros Hc. by apply (keeps_invoke cwd). }
  split; [exact H|].
  destruct c; try (left; by apply H).
  simpl. unfold switch_to_local_repo_path, try_except, bind, os_chdir, print, log, modify, ret.
  destruct (fs w !! LOCAL_REPO_PATH); simpl; [by right|by left].
Qed.

(** X3. switch_to_local_repo_path never raises.  When the local path exists
    it makes it the working directory and says so; when it does not, the
    error of chdir is caught, a failure line is printed, the working
    directory stays, and the tool still returns None. *)
Theorem switch_to_local_repo_path_swallows_failure (w : World) :
  switch_to_local_repo_path w
  = match fs w !! LOCAL_REPO_PATH with
    | Some _ =>
        Ok PNone (emit (Stdout ("Switched to directory: " +:+ LOCAL_REPO_PATH))
                       (set_cwd LOCAL_REPO_PATH w))
    | None =>
        Ok PNone (emit (Stdout ("Failed to switch to directory: "
                                +:+ "[Errno 2] No such file or directory: '/tmp/aiw4'")) w)
    end.
Proof.
  unfold switch_to_local_repo_path, try_except, bind, os_chdir, print, log, modify, ret.
  destruct (fs w !! LOCAL_REPO_PATH); reflexivity.
Qed.

(** X4. When the local path does not exist and the clone URL resolves to
    nothing, clone_repo raises the error of git clone; the file system is
    as before, so a later call tries to clone again, and nothing has been
    printed. *)
Theorem clone_repo_failure_leaves_nothing (w : World) :
  fs w !! LOCAL_REPO_PATH = None →
  remotes w !! url_in w = None →
  clone_repo w = Raise GitCommandError (emit (EvClone (url_in w) LOCAL_REPO_PATH) w)
  ∧ fs (final (clone_repo w)) = fs w
  ∧ stdout (final (clone_repo w)) = stdout w
  ∧ ∃ rest, emitted (final (clone_repo w)) (clone_repo (final (clone_repo w)))
            = EvClone (url_in w) LOCAL_REPO_PATH :: rest.
Proof.
  intros Hn Hr. rewrite (clone_repo_absent w Hn), Hr. simpl.
  split; [done|]. split; [done|]. split; [apply stdout_emit_clone|].
  set (w1 := emit (EvClone (url_in w) LOCAL_REPO_PATH) w).
  rewrite (clone_repo_absent w1 Hn).
  change (remotes w1 !! url_in w1) with (remotes w !! url_in w). rewrite Hr.
  unfold emitted. simpl. rewrite drop_app_length. eauto.
Qed.

Lemma clone_repo_failure_leaves_nothing_witness :
  clone_repo Cases.offline
  = Raise GitCommandError (emit (EvClone Fixture.url LOCAL_REPO_PATH) Cases.offline)
  ∧ fs (final (clone_repo Cases.offline)) = fs Cases.offline.
Proof.
  destruct (clone_repo_failure_leaves_nothing Cases.offline) as (H1 & H2 & _);
    [vm_compute; reflexivity..|].
  split; [exact H1 | exact H2].
Defined.

(** X5. Outside a checkout, checkout_source_branch, has_changes and
    commit_and_push raise the error of git.Repo before doing anything: no
    git command is run, nothing is printed, the world is unchanged. *)
Theorem tools_raise_outside_checkout (w : World) (msg : string) :
  ¬ valid_checkout w (cwd w) →
  ∃ e,
    (e = InvalidGitRepositoryError ∨ e = NoSuchPathError)
    ∧ checkout_source_branch w = Raise e w
    ∧ has_changes w = Raise e w
    ∧ commit_and_push msg w = Raise e w.
Proof.
  intros Hv.
  unfold checkout_source_branch, has_changes, commit_and_push,
    bind, os_getcwd, getenv, gets, Git.open.
  destruct (fs w !! cwd w) as [[f|r]|] eqn:E.
  - exists InvalidGitRepositoryError. eauto.
  - destruct Hv. by exists r.
  - exists NoSuchPathError. eauto.
Qed.

Lemma tools_raise_outside_checkout_witness :
  ∃ e,
    (e = InvalidGitRepositoryError ∨ e = NoSuchPathError)
    ∧ checkout_source_branch Cases.outside = Raise e Cases.outside
    ∧ has_changes Cases.outside = Raise e Cases.outside
    ∧ commit_and_push "Beautify" Cases.outside = Raise e Cases.outside.
Proof.
  apply (tools_raise_outside_checkout Cases.outside "Beautify").
  intros [r Hr]. vm_compute in Hr. discriminate Hr.
Defined.

(** X6. On a detached HEAD commit_and_push raises the TypeError of
    active_branch before it stages or commits: the world is unchanged. *)
Theorem commit_and_push_detached_head (msg : string) (w : World) (r : Repo) (c : nat) :
  fs w !! cwd w = Some (Checkout r) →
  HEAD r = Detached c →
  commit_and_push msg w = Raise TypeError w.
Proof.
  intros Hfs Hh. unfold commit_and_push, bind, getenv, os_getcwd, gets.
  rewrite (open_checkout _ _ r) by done.
  unfold Git.active_branch, bind. rewrite (open_checkout _ _ r) by done.
  by rewrite Hh.
Qed.

Lemma commit_and_push_detached_head_witness :
  commit_and_push "Beautify" Cases.detached = Raise TypeError Cases.detached.
Proof.
  apply (commit_and_push_detached_head "Beautify" Cases.detached
           (mkRepo Cases.refs Cases.refs (Detached 1) Fixture.tree_feature
                   Fixture.tree_feature (Some Fixture.url)) 1).
  - vm_compute. reflexivity.
  - reflexivity.
Defined.

(** X7. When the autopep8 executable cannot be started, run_autopep8 on a
    non-empty list raises FileNotFoundError at the first file and changes
    nothing; the later files are not tried. *)
Theorem run_autopep8_without_executable (file : string) (rest : list string) (w : World) :
  autopep8 w = None →
  run_autopep8 (file :: rest) w = Raise FileNotFoundError w.
Proof.
  intros Ht. cbn [run_autopep8]. unfold bind, subprocess_run.
  rewrite decide_True by done. unfold bind, gets. by rewrite Ht.
Qed.

Lemma run_autopep8_without_executable_witness :
  run_autopep8 ["a.py"; "c.py"] (Fixture.checkout_on "feature" None)
  = Raise FileNotFoundError (Fixture.checkout_on "feature" None).
Proof.
  apply (run_autopep8_without_executable "a.py" ["c.py"]
           (Fixture.checkout_on "feature" None)).
  reflexivity.
Defined.

(* ===================================================================== *)
(** ** 17. commit_and_push: failures after the commit *)
(* ===================================================================== *)

(** commit_and_push up to the lookup of origin: on a branch, staging and
    committing always go through, and what remains is the push. *)
Lemma commit_and_push_eq (msg : string) (w : World) (r : Repo) (a : string) :
  fs w !! cwd w = Some (Checkout r) →
  HEAD r = Sym a →
  commit_and_push msg w
  = match origin r with
    | None => Raise ValueError (after_commit msg a r w)
    | Some url =>
        push_and_report (cwd w) url (fstr (environ w !! "SOURCE_BRANCH"))
          (emit (Stdout ("Pushing changes to remote branch '"
                         +:+ fstr (environ w !! "SOURCE_BRANCH") +:+ "'"))
                (after_commit msg a r w))
    end.
Proof.
  intros Hfs Hh.
  unfold commit_and_push, bind, getenv, os_getcwd, gets.
  rewrite (open_checkout _ _ r) by done.
  unfold Git.active_branch, bind. rewrite (open_checkout _ _ r) by done.
  rewrite Hh. unfold ret, print, log, modify.
  rewrite (add_update_eq _ _ r) by done.
  rewrite (index_commit_eq _ msg _ (set_index (Git.staged (index r) (worktree r)) r) a);
    [|wsimpl; by rewrite lookup_insert_eq|done].
  unfold Git.remote_origin, bind.
  rewrite (open_checkout _ _ (committed a (length (objects w)) r))
    by (wsimpl; by rewrite lookup_insert_eq).
  change (origin (committed a (length (objects w)) r)) with (origin r).
  destruct (origin r); reflexivity.
Qed.

Lemma after_commit_checkout msg a r w :
  fs (after_commit msg a r w) !! cwd w
  = Some (Checkout (committed a (length (objects w)) r)).
Proof. unfold after_commit. wsimpl. by rewrite lookup_insert_eq. Qed.

(** X8. Without a remote called origin, commit_and_push raises ValueError
    only after it has committed: the new commit is in the store and is the
    tip of the active branch, and nothing went over the network. *)
Theorem commit_and_push_without_origin (msg : string) (w : World) (r : Repo) (a : string) :
  fs w !! cwd w = Some (Checkout r) →
  HEAD r = Sym a →
  origin r = None →
  ∃ w' r',
    commit_and_push msg w = Raise ValueError w'
    ∧ objects w'
      = objects w ++ [mkCommit (heads r !! a) (Git.staged (index r) (worktree r)) msg]
    ∧ fs w' !! cwd w = Some (Checkout r')
    ∧ heads r' !! a = Some (length (objects w))
    ∧ emitted w (commit_and_push msg w)
      = [Stdout ("Active branch: " +:+ a); EvAddUpdate; EvCommit (length (objects w))].
Proof.
  intros Hfs Hh Hor. rewrite (commit_and_push_eq msg w r a Hfs Hh), Hor.
  exists (after_commit msg a r w), (committed a (length (objects w)) r).
  split; [done|]. split; [done|]. split; [apply after_commit_checkout|].
  split; [simpl; by rewrite lookup_insert_eq|].
  unfold emitted, after_commit. wsimpl.
  rewrite <- !(assoc_L (++)). by rewrite drop_app_length.
Qed.

Lemma commit_and_push_without_origin_witness :
  ∃ w' r',
    commit_and_push "Beautify" Cases.no_origin = Raise ValueError w'
    ∧ length (objects w') = 3
    ∧ fs w' !! "/tmp/aiw4" = Some (Checkout r')
    ∧ heads r' !! "feature" = Some 2.
Proof.
  destruct (commit_and_push_without_origin "Beautify" Cases.no_origin
              (mkRepo Cases.refs Cases.refs (Sym "feature") Fixture.tree_feature
                      Fixture.tree_feature None) "feature")
    as (w' & r' & Hrun & Hob & Hfs & Hhd & _); [vm_compute; reflexivity..|].
  exists w', r'. split; [exact Hrun|]. split; [rewrite Hob; reflexivity|].
  split; [exact Hfs | exact Hhd].
Defined.

(** X9. When the push cannot be carried out (the URL of origin resolves to
    nothing, or there is no local branch of the name SOURCE_BRANCH gives,
    the text None when the variable is unset), commit_and_push raises the
    error of git push after it has committed: the commit stays in the local
    store, the remotes are as they were. *)
Theorem commit_and_push_push_failure (msg : string) (w : World) (r : Repo)
    (a url : string) :
  fs w !! cwd w = Some (Checkout r) →
  HEAD r = Sym a →
  origin r = Some url →
  remotes w !! url = None
  ∨ <[a := length (objects w)]> (heads r) !! fstr (environ w !! "SOURCE_BRANCH") = None →
  ∃ w',
    commit_and_push msg w = Raise GitCommandError w'
    ∧ objects w'
      = objects w ++ [mkCommit (heads r !! a) (Git.staged (index r) (worktree r)) msg]
    ∧ remotes w' = remotes w
    ∧ actions (emitted w (commit_and_push msg w))
      = [EvAddUpdate; EvCommit (length (objects w));
         EvPush url (fstr (environ w !! "SOURCE_BRANCH"))
                    (fstr (environ w !! "SOURCE_BRANCH"))].
Proof.
  intros Hfs Hh Hor Hfail. rewrite (commit_and_push_eq msg w r a Hfs Hh), Hor.
  set (bn := fstr (environ w !! "SOURCE_BRANCH")) in *.
  set (w4 := emit (Stdout ("Pushing changes to remote branch '" +:+ bn +:+ "'"))
                  (after_commit msg a r w)).
  assert (Hp : Git.push (cwd w) url bn bn w4
               = Raise GitCommandError (emit (EvPush url bn bn) w4)).
  { unfold Git.push, bind, log, modify.
    rewrite (open_checkout _ _ (committed a (length (objects w)) r))
      by apply after_commit_checkout.
    unfold gets.
    change (remotes (emit (EvPush url bn bn) w4)) with (remotes w).
    change (heads (committed a (length (objects w)) r))
      with (<[a := length (objects w)]> (heads r)).
    destruct Hfail as [-> | ->]; [done|]. by destruct (remotes w !! url). }
  exists (emit (EvPush url bn bn) w4).
  unfold push_and_report, bind. rewrite Hp.
  split; [done|]. split; [done|]. split; [done|].
  unfold emitted, w4, after_commit. wsimpl.
  rewrite <- !(assoc_L (++)). rewrite drop_app_length. reflexivity.
Qed.

Lemma commit_and_push_push_failure_witness :
  (∃ w', commit_and_push "Beautify" Cases.unreachable = Raise GitCommandError w'
         ∧ length (objects w') = 3)
  ∧ (∃ w', commit_and_push "Beautify" Cases.no_source_branch = Raise GitCommandError w'
           ∧ actions (emitted Cases.no_source_branch
                        (commit_and_push "Beautify" Cases.no_source_branch))
             = [EvAddUpdate; EvCommit 2; EvPush Fixture.url "None" "None"]).
Proof.
  split.
  - destruct (commit_and_push_push_failure "Beautify" Cases.unreachable
                Cases.on_feature "feature" Fixture.url)
      as (w' & Hrun & Hob & _); [vm_compute; reflexivity..| |].
    + left. vm_compute. reflexivity.
    + exists w'. split; [exact Hrun|]. rewrite Hob. reflexivity.
  - destruct (commit_and_push_push_failure "Beautify" Cases.no_source_branch
                Cases.on_feature "feature" Fixture.url)
      as (w' & Hrun & _ & _ & Hact); [vm_compute; reflexivity..| |].
    + right. vm_compute. reflexivity.
    + exists w'. split; [exact Hrun | exact Hact].
Defined.

(** X10. A rejected push is not an error for commit_and_push.  When the
    remote's branch is not an ancestor of the local tip, the tool still
    returns None: the remote is unchanged, the commit stays in the local
    store only, and the rejection shows only in the printed flags
    (REJECTED and ERROR, 1032). *)
Theorem commit_and_push_rejected_push_returns (msg : string) (w : World) (r : Repo)
    (a url : string) (rm : Remote) (lc rc : nat) :
  fs w !! cwd w = Some (Checkout r) →
  HEAD r = Sym a →
  origin r = Some url →
  remotes w !! url = Some rm →
  <[a := length (objects w)]> (heads r) !! fstr (environ w !! "SOURCE_BRANCH") = Some lc →
  r_heads rm !! fstr (environ w !! "SOURCE_BRANCH") = Some rc →
  rc ≠ lc →
  Git.is_ancestor
    (objects w ++ [mkCommit (heads r !! a) (Git.staged (index r) (worktree r)) msg])
    rc lc = false →
  ∃ w',
    commit_and_push msg w = Ok PNone w'
    ∧ remotes w' = remotes w
    ∧ length (objects w') = S (length (objects w))
    ∧ "    Flags: 1032" ∈ stdout w'.
Proof.
  intros Hfs Hh Hor Hrm Hlc Hrc Hne Hanc.
  rewrite (commit_and_push_eq msg w r a Hfs Hh), Hor.
  set (bn := fstr (environ w !! "SOURCE_BRANCH")) in *.
  set (w4 := emit (Stdout ("Pushing changes to remote branch '" +:+ bn +:+ "'"))
                  (after_commit msg a r w)).
  assert (Hp : Git.push (cwd w) url bn bn w4
               = Ok [Git.mkPushInfo "[rejected] (non-fast-forward)" ("origin/" +:+ bn) bn
                       (Z.lor Git.REJECTED Git.ERROR)]
                    (emit (EvPush url bn bn) w4)).
  { unfold Git.push, bind, log, modify.
    rewrite (open_checkout _ _ (committed a (length (objects w)) r))
      by apply after_commit_checkout.
    unfold gets.
    change (remotes (emit (EvPush url bn bn) w4)) with (remotes w).
    change (heads (committed a (length (objects w)) r))
      with (<[a := length (objects w)]> (heads r)).
    rewrite Hrm, Hlc, Hrc. rewrite decide_False by done.
    change (objects (emit (EvPush url bn bn) w4))
      with (objects w ++ [mkCommit (heads r !! a) (Git.staged (index r) (worktree r)) msg]).
    by rewrite Hanc. }
  unfold push_and_report, bind. rewrite Hp.
  eexists. split; [reflexivity|]. split; [reflexivity|].
  split. { unfold w4, after_commit. wsimpl. rewrite length_app. simpl. lia. }
  unfold stdout. apply list_elem_of_omap.
  exists (Stdout "    Flags: 1032"). split; [|done].
  wsimpl. set_solver.
Qed.

Lemma commit_and_push_rejected_push_returns_witness :
  ∃ w',
    commit_and_push "Beautify" Cases.remote_ahead = Ok PNone w'
    ∧ remotes w' = remotes Cases.remote_ahead
    ∧ length (objects w') = 4.
Proof.
  destruct (commit_and_push_rejected_push_returns "Beautify" Cases.remote_ahead
              Cases.on_feature "feature" Fixture.url
              (mkRemote {[ "main" := 0; "feature" := 2 ]} "main") 3 2)
    as (w' & Hrun & Hrem & Hlen & _); [vm_compute; reflexivity..| | |].
  - discriminate.
  - vm_compute. reflexivity.
  - exists w'. split; [exact Hrun|]. split; [exact Hrem | exact Hlen].
Defined.

(* ===================================================================== *)
(** ** 18. has_changes *)
(* ===================================================================== *)

Lemma has_changes_eq (w : World) (r : Repo) :
  fs w !! cwd w = Some (Checkout r) →
  has_changes w
  = Ok (PBool (Git.is_dirty (objects w) r))
       (emit (Stdout ("Repo has changes: " +:+ py_bool (Git.is_dirty (objects w) r))) w).
Proof.
  intros Hfs. unfold has_changes, bind, os_getcwd, gets.
  by rewrite (open_checkout _ _ r).
Qed.

Lemma is_dirty_false_intro objs r :
  index r = Git.tree_of objs (Git.head_commit r) →
  (∀ p c, index r !! p = Some c → worktree r !! p = Some c) →
  Git.is_dirty objs r = false.
Proof.
  intros Hi Hw. unfold Git.is_dirty. apply orb_false_intro.
  - apply bool_decide_eq_false. by intros H.
  - apply negb_false_iff. by apply bool_decide_eq_true.
Qed.

Lemma pristine_not_dirty objs r : pristine objs r → Git.is_dirty objs r = false.
Proof.
  intros [Hi Hw]. apply is_dirty_false_intro; [done|].
  intros p c. by rewrite Hw.
Qed.

(** X11. After commit_and_push has returned, the checkout is clean:
    has_changes, called next, answers False.  (What was staged is what was
    committed, and staging took the content of the working tree.) *)
Theorem commit_and_push_leaves_checkout_clean (msg : string) (w : World) (r : Repo)
    (a url : string) (rm : Remote) (lc : nat) :
  fs w !! cwd w = Some (Checkout r) →
  HEAD r = Sym a →
  origin r = Some url →
  remotes w !! url = Some rm →
  <[a := length (objects w)]> (heads r) !! fstr (environ w !! "SOURCE_BRANCH") = Some lc →
  ∃ w' w'',
    commit_and_push msg w = Ok PNone w'
    ∧ has_changes w' = Ok (PBool false) w''.
Proof.
  intros Hfs Hh Hor Hrm Hlc.
  destruct (commit_and_push_runs msg w r a url rm lc)
    as (w' & r' & rm' & Hrun & _ & Hob & Hfs' & Hhd & Hhead & Hix & Hwt & _); try done.
  assert (Hcwd : cwd w' = cwd w).
  { pose proof (keeps_commit_and_push cwd (λ _ _, eq_refl) (λ _ _, eq_refl)
                  (λ _ _, eq_refl) (λ _ _, eq_refl) msg w) as H.
    by rewrite Hrun in H. }
  assert (Hclean : Git.is_dirty (objects w') r' = false).
  { apply is_dirty_false_intro.
    - unfold Git.head_commit. rewrite Hhead, Hhd, lookup_insert_eq, Hix, Hob.
      simpl. by rewrite list_lookup_middle.
    - intros p c. rewrite Hix, Hwt, staged_lookup.
      destruct (index r !! p); simpl; [done|discriminate]. }
  exists w'. eexists. split; [done|].
  rewrite (has_changes_eq w' r') by (by rewrite Hcwd).
  rewrite Hclean. reflexivity.
Qed.

Lemma commit_and_push_leaves_checkout_clean_witness :
  (∃ w0,
     has_changes (final (run_autopep8 ["a.py"]
                           (Fixture.checkout_on "feature" (Some Fixture.tidy))))
     = Ok (PBool true) w0)
  ∧ ∃ w' w'',
      commit_and_push "Beautify"
        (final (run_autopep8 ["a.py"] (Fixture.checkout_on "feature" (Some Fixture.tidy))))
      = Ok PNone w'
      ∧ has_changes w' = Ok (PBool false) w''.
Proof.
  split; [eexists; vm_compute; reflexivity|].
  apply (commit_and_push_leaves_checkout_clean "Beautify"
           (final (run_autopep8 ["a.py"] (Fixture.checkout_on "feature" (Some Fixture.tidy))))
           (mkRepo {[ "main" := 0; "feature" := 1 ]} {[ "main" := 0; "feature" := 1 ]}
                   (Sym "feature") Fixture.tree_feature
                   (<["a.py" := "x=1"]> Fixture.tree_feature) (Some Fixture.url))
           "feature" Fixture.url Fixture.hosted 2);
    vm_compute; reflexivity.
Defined.

(** X12. has_changes does not see untracked files: writing a file whose
    path is not in the index, new or not, leaves its answer as it was. *)
Theorem has_changes_ignores_untracked (w : World) (r : Repo) (name content : string) :
  fs w !! cwd w = Some (Checkout r) →
  index r !! name = None →
  answer (has_changes (write_file (cwd w) name content w)) = answer (has_changes w).
Proof.
  intros Hfs Hn.
  rewrite (has_changes_eq w r Hfs).
  rewrite (has_changes_eq _ (set_worktree (<[name := content]> (worktree r)) r)).
  2:{ unfold write_file. wsimpl. rewrite lookup_alter_eq, Hfs. reflexivity. }
  simpl. do 2 f_equal. unfold Git.is_dirty. f_equal. f_equal.
  apply bool_decide_ext. wsimpl. split; intros H p c Hp.
  - specialize (H p c Hp). simpl in H.
    rewrite lookup_insert_ne in H; [done|]. intros <-. congruence.
  - simpl. rewrite lookup_insert_ne; [by apply H|]. intros <-. congruence.
Qed.

Lemma has_changes_ignores_untracked_witness :
  answer (has_changes (write_file "/tmp/aiw4" "new.py" "z=3 "
                         (Fixture.checkout_on "feature" None)))
  = Some (PBool false).
Proof.
  refine (eq_trans (has_changes_ignores_untracked (Fixture.checkout_on "feature" None)
                      Cases.on_feature "new.py" "z=3 " _ _) _).
  - vm_compute. reflexivity.
  - vm_compute. reflexivity.
  - vm_compute. reflexivity.
Defined.

(* ===================================================================== *)
(** ** 19. run_autopep8: what it touches *)
(* ===================================================================== *)

Section Touches.

Variable fmt : Formatter.

Lemma node_files_write_node name c n :
  node_files (write_node name c n) = <[name := c]> (node_files n).
Proof. by destruct n. Qed.

Lemma read_write_file d name c p w :
  read_file d p (write_file d name c w)
  = fs w !! d ≫= λ n, <[name := c]> (node_files n) !! p.
Proof.
  unfold read_file, write_file. wsimpl. rewrite lookup_alter_eq.
  destruct (fs w !! d) as [n|]; simpl; [|done]. by rewrite node_files_write_node.
Qed.

(** One formatter run: the working directory stays, files of other names
    stay, no file appears or disappears, and of a checkout only the working
    tree can change. *)
Lemma format_one_touches file w :
  cwd (format_one fmt file w).2 = cwd w
  ∧ (∀ p, p ≠ file →
          read_file (cwd w) p (format_one fmt file w).2 = read_file (cwd w) p w)
  ∧ (∀ p, is_Some (read_file (cwd w) p (format_one fmt file w).2)
          ↔ is_Some (read_file (cwd w) p w))
  ∧ (∀ r, fs w !! cwd w = Some (Checkout r) →
          ∃ r', fs (format_one fmt file w).2 !! cwd w = Some (Checkout r')
                ∧ index r' = index r ∧ HEAD r' = HEAD r ∧ heads r' = heads r).
Proof.
  unfold format_one. destruct (read_file (cwd w) file w) as [c|] eqn:E; simpl.
  - split; [done|]. split; [|split].
    + intros p Hp.
      change (read_file (cwd w) p (emit ?e ?x)) with (read_file (cwd w) p x).
      rewrite read_write_file. unfold read_file.
      destruct (fs w !! cwd w); simpl; [|done]. by rewrite lookup_insert_ne.
    + intros p.
      change (read_file (cwd w) p (emit ?e ?x)) with (read_file (cwd w) p x).
      rewrite read_write_file. unfold read_file in *.
      destruct (fs w !! cwd w) as [n|]; simpl in *; [|done].
      destruct (decide (file = p)) as [<-|Hne].
      * rewrite lookup_insert_eq, E. split; eauto.
      * by rewrite lookup_insert_ne.
    + intros r Hr. unfold write_file. wsimpl. rewrite lookup_alter_eq, Hr. simpl.
      eexists. split; [reflexivity|]. done.
  - split; [done|]. split; [done|]. split; [done|]. intros r Hr. eauto.
Qed.

Lemma run_autopep8_touches files :
  ∀ w, autopep8 w = Some fmt →
  (∀ p, p ∉ files →
        read_file (cwd w) p (final (run_autopep8 files w)) = read_file (cwd w) p w)
  ∧ (∀ p, is_Some (read_file (cwd w) p (final (run_autopep8 files w)))
          ↔ is_Some (read_file (cwd w) p w))
  ∧ (∀ r, fs w !! cwd w = Some (Checkout r) →
          ∃ r', fs (final (run_autopep8 files w)) !! cwd w = Some (Checkout r')
                ∧ index r' = index r ∧ HEAD r' = HEAD r ∧ heads r' = heads r).
Proof.
  induction files as [|file rest IH]; intros w Ht.
  - simpl. split; [done|]. split; [done|]. eauto.
  - cbn [run_autopep8]. unfold bind. fold (argv_of file).
    rewrite (subprocess_run_autopep8 fmt) by done.
    destruct (format_one_touches file w) as (Hc & Hother & Hex & Hrepo).
    destruct (format_one_frame fmt file w) as (Ha & _ & _).
    set (w1 := (format_one fmt file w).2) in *.
    destruct (IH w1) as (IH1 & IH2 & IH3); [by rewrite Ha|].
    rewrite Hc in IH1, IH2, IH3.
    split; [|split].
    + intros p Hp. apply not_elem_of_cons in Hp as [Hne Hp].
      rewrite IH1 by done. by apply Hother.
    + intros p. by rewrite IH2.
    + intros r Hr. destruct (Hrepo r Hr) as (r1 & Hr1 & Hi1 & Hh1 & Hd1).
      destruct (IH3 r1 Hr1) as (r' & Hr' & Hi' & Hh' & Hd').
      exists r'. split; [done|]. by rewrite Hi', Hh', Hd'.
Qed.

End Touches.



(** X14. On files that are not on disk the formatter exits with an error
    each time and run_autopep8 goes through the whole list all the same:
    it returns None and the file system is unchanged. *)
Theorem run_autopep8_absent_files (fmt : Formatter) (files : list string) (w : World) :
  autopep8 w = Some fmt →
  (∀ f, f ∈ files → read_file (cwd w) f w = None) →
  ∃ w',
    run_autopep8 files w = Ok PNone w'
    ∧ fs w' = fs w
    ∧ trace w' = trace w ++ map (λ f, EvSpawn (argv_of f) EXIT_CODE_ERROR) files.
Proof.
  revert w. induction files as [|file rest IH]; intros w Ht Habs.
  - exists w. simpl. by rewrite app_nil_r.
  - cbn [run_autopep8]. unfold bind. fold (argv_of file).
    rewrite (subprocess_run_autopep8 fmt) by done.
    unfold format_one. rewrite (Habs file) by apply list_elem_of_here. simpl.
    destruct (IH (emit (EvSpawn (argv_of file) EXIT_CODE_ERROR) w))
      as (w' & Hr & Hfs & Htr); [done| |].
    { intros f Hf. change (read_file ?d f (emit ?e w)) with (read_file d f w).
      apply Habs. by apply list_elem_of_further. }
    exists w'. split; [done|]. split; [done|].
    rewrite Htr. simpl. by rewrite <- (assoc_L (++)).
Qed.

Lemma run_autopep8_absent_files_witness :
  ∃ w',
    run_autopep8 ["x.py"; "y.py"] (Fixture.checkout_on "feature" (Some Fixture.tidy))
    = Ok PNone w'
    ∧ fs w' = fs (Fixture.checkout_on "feature" (Some Fixture.tidy))
    ∧ trace w' = [EvSpawn (argv_of "x.py") 1; EvSpawn (argv_of "y.py") 1].
Proof.
  destruct (run_autopep8_absent_files Fixture.tidy ["x.py"; "y.py"]
              (Fixture.checkout_on "feature" (Some Fixture.tidy)))
    as (w' & Hr & Hfs & Htr).
  - reflexivity.
  - intros f Hf. apply list_elem_of_In in Hf. simpl in Hf.
    destruct Hf as [<-|[<-|[]]]; vm_compute; reflexivity.
  - exists w'. split; [exact Hr|]. split; [exact Hfs | exact Htr].
Defined.

(* ===================================================================== *)
(** ** 20. get_files_from_pull_request *)
(* ===================================================================== *)

(** When get_files_from_pull_request returns in this model, and only
    then, every lookup on its way has answered. *)
Lemma get_files_from_pull_request_inv (w w' : World) (v : pyval) :
  get_files_from_pull_request w = Ok v w'
  ↔ ∃ rp pulls s n files,
      environ w !! "REPO_PATH" = Some rp
      ∧ forge w !! rp = Some pulls
      ∧ environ w !! "PR_NUMBER" = Some s
      ∧ parse_int s = Some n
      ∧ pulls !! n = Some files
      ∧ v = PList files
      ∧ w' = emit (EvForge rp) w.
Proof.
  unfold get_files_from_pull_request, bind, getenv, gets, get_repo, bind, log,
    modify, gets, py_int, get_pull_files, ret, raise.
  split.
  - destruct (environ w !! "REPO_PATH") as [rp|]; [|done]. wsimpl.
    destruct (forge w !! rp) as [pulls|] eqn:Hf; [|done]. wsimpl.
    destruct (environ w !! "PR_NUMBER") as [s|]; simpl; [|done].
    destruct (parse_int s) as [n|] eqn:Hn; simpl; [|done].
    destruct (pulls !! n) as [files|] eqn:Hp; simpl; [|done].
    intros H. injection H as <- <-. exists rp, pulls, s, n, files.
    repeat split; done.
  - intros (rp & pulls & s & n & files & Hr & Hf & Hs & Hn & Hp & -> & ->).
    rewrite Hr. wsimpl. rewrite Hf. wsimpl. rewrite Hs. simpl. rewrite Hn. simpl.
    by rewrite Hp.
Qed.

Lemma get_files_from_pull_request_query_first (w : World) (rp : string)
    (pulls : gmap Z (list string)) :
  environ w !! "REPO_PATH" = Some rp →
  forge w !! rp = Some pulls →
  environ w !! "PR_NUMBER" = None →
  get_files_from_pull_request w = Raise TypeError (emit (EvForge rp) w).
Proof.
  intros Hr Hf Hn.
  unfold get_files_from_pull_request, bind, getenv, gets, get_repo, bind, log,
    modify, gets, py_int, raise, ret.
  rewrite Hr. wsimpl. rewrite Hf. simpl. wsimpl. by rewrite Hn.
Qed.



(** X18. An unset PR_NUMBER is found out only after the forge has been
    asked for the repository: int(None) raises TypeError with the query
    already in the trace. *)
Theorem get_files_from_pull_request_unset_number (w : World) (rp : string)
    (pulls : gmap Z (list string)) :
  environ w !! "REPO_PATH" = Some rp →
  forge w !! rp = Some pulls →
  environ w !! "PR_NUMBER" = None →
  get_files_from_pull_request w = Raise TypeError (emit (EvForge rp) w)
  ∧ emitted w (get_files_from_pull_request w) = [EvForge rp].
Proof.
  intros Hr Hf Hn.
  rewrite (get_files_from_pull_request_query_first w rp pulls Hr Hf Hn).
  split; [done|]. unfold emitted. simpl. apply drop_app_length.
Qed.

Lemma get_files_from_pull_request_unset_number_witness :
  get_files_from_pull_request
    (set_environ (delete "PR_NUMBER" Fixture.env) Fixture.fresh)
  = Raise TypeError
      (emit (EvForge "linhbn123/aiw4")
         (set_environ (delete "PR_NUMBER" Fixture.env) Fixture.fresh)).
Proof.
  refine (proj1 (get_files_from_pull_request_unset_number
                   (set_environ (delete "PR_NUMBER" Fixture.env) Fixture.fresh)
                   "linhbn123/aiw4" {[ 42%Z := ["a.py"; "b.txt"; "c.py"] ]} _ _ _));
    vm_compute; reflexivity.
Defined.

(* ===================================================================== *)
(** ** 21. From clone to sync *)
(* ===================================================================== *)

Lemma cloned_pristine objs url rm : pristine objs (Git.cloned objs url rm).
Proof.
  unfold pristine, Git.cloned, Git.head_commit. simpl. split; [|done].
  destruct (r_heads rm !! r_default rm) as [c|]; simpl.
  - by rewrite lookup_singleton_eq.
  - by rewrite lookup_empty.
Qed.

(** X19. After a first-time clone that returned, switch_to_local_repo_path
    puts the working directory in a checkout of the clone URL with nothing
    staged, modified or untracked, and has_changes, called next, answers
    False. *)
Theorem fresh_clone_is_clean (w w1 : World) (v : pyval) :
  fs w !! LOCAL_REPO_PATH = None →
  clone_repo w = Ok v w1 →
  ∃ w2 w3 r,
    switch_to_local_repo_path w1 = Ok PNone w2
    ∧ cwd w2 = LOCAL_REPO_PATH
    ∧ fs w2 !! cwd w2 = Some (Checkout r)
    ∧ origin r = Some (url_in w)
    ∧ pristine (objects w2) r
    ∧ has_changes w2 = Ok (PBool false) w3.
Proof.
  intros Hn H. rewrite (clone_repo_absent w Hn) in H.
  destruct (remotes w !! url_in w) as [rm|]; [|done]. injection H as _ <-.
  set (r := Git.cloned (objects w) (url_in w) rm).
  unfold switch_to_local_repo_path, try_except, bind, os_chdir, print, log, modify, ret.
  wsimpl. rewrite lookup_insert_eq.
  eexists _, _, r. split; [reflexivity|]. wsimpl.
  split; [done|]. split; [by rewrite lookup_insert_eq|].
  split; [done|]. split; [apply cloned_pristine|].
  erewrite has_changes_eq by (wsimpl; by rewrite lookup_insert_eq).
  wsimpl.
  rewrite (pristine_not_dirty (objects w) r (cloned_pristine (objects w) (url_in w) rm)).
  reflexivity.
Qed.

Lemma fresh_clone_is_clean_witness :
  ∃ w2 w3 r,
    switch_to_local_repo_path (final (clone_repo Fixture.fresh)) = Ok PNone w2
    ∧ cwd w2 = LOCAL_REPO_PATH
    ∧ fs w2 !! cwd w2 = Some (Checkout r)
    ∧ origin r = Some (url_in Fixture.fresh)
    ∧ pristine (objects w2) r
    ∧ has_changes w2 = Ok (PBool false) w3.
Proof.
  apply (fresh_clone_is_clean Fixture.fresh (final (clone_repo Fixture.fresh)) PNone).
  - vm_compute. reflexivity.
  - vm_compute. reflexivity.
Defined.

Section Pristine.

Implicit Types (w : World) (r : Repo) (p b : string).

Lemma keys_lookup_None (a b c : gmap string string) (p : string) :
  Git.keys a b c !! p = None → a !! p = None ∧ b !! p = None ∧ c !! p = None.
Proof.
  unfold Git.keys. intros H.
  apply lookup_union_None in H as [H Hc]. apply lookup_union_None in H as [Ha Hb].
  rewrite lookup_fmap in Ha, Hb, Hc.
  destruct (a !! p), (b !! p), (c !! p); done.
Qed.

(** A tree that is checked out unmodified is replaced by the new tree. *)
Lemma switch_tree_pristine (t t' : gmap string string) : Git.switch_tree t t' t = t'.
Proof.
  apply map_eq. intros p. unfold Git.switch_tree. rewrite map_lookup_imap.
  destruct (Git.keys t t' t !! p) as [[]|] eqn:E; simpl.
  - destruct (decide (t !! p = t' !! p)); done.
  - by apply keys_lookup_None in E as (_ & -> & _).
Qed.

Lemma switch_safe_pristine (t t' : gmap string string) : Git.switch_safe t t' t t = true.
Proof.
  unfold Git.switch_safe. apply bool_decide_eq_true. intros p u _. by right.
Qed.

Lemma switch_safe_same (t idx wt : gmap string string) : Git.switch_safe t t idx wt = true.
Proof.
  unfold Git.switch_safe. apply bool_decide_eq_true. intros p u _. by left.
Qed.

Lemma on_branch_pristine objs b c r : pristine objs (on_branch objs b c r).
Proof.
  unfold pristine, on_branch, Git.head_commit. simpl. by rewrite lookup_insert_eq.
Qed.

Lemma switch_to_pristine p r b c w :
  pristine (objects w) r →
  Git.switch_to p r b c w
  = Ok tt (set_fs (<[p := Checkout (on_branch (objects w) b c r)]> (fs w)) w).
Proof.
  intros [Hi Hw]. unfold Git.switch_to, bind, gets, Git.store, modify.
  rewrite Hw, Hi, switch_safe_pristine, !switch_tree_pristine. reflexivity.
Qed.

Lemma checkout_pristine p w r b :
  fs w !! p = Some (Checkout r) →
  pristine (objects w) r →
  is_Some (heads r !! b) ∨ is_Some (tracking r !! b) →
  ∃ r',
    Git.checkout p (Some b) w
    = Ok tt (set_fs (<[p := Checkout r']> (fs w)) (emit (EvCheckout (Some b)) w))
    ∧ pristine (objects w) r'
    ∧ HEAD r' = Sym b
    ∧ origin r' = origin r
    ∧ tracking r' = tracking r
    ∧ (∀ b', is_Some (heads r !! b') → is_Some (heads r' !! b'))
    ∧ (∀ c, heads r !! b = Some c → heads r' !! b = Some c).
Proof.
  intros Hfs Hp Hb. unfold Git.checkout, bind, log, modify.
  rewrite (open_checkout _ _ r) by done.
  assert (∃ c, (match heads r !! b with
                | Some c => Git.switch_to p r b c
                | None => match tracking r !! b with
                          | Some c => Git.switch_to p r b c
                          | None => raise GitCommandError
                          end
                end) = Git.switch_to p r b c
               ∧ ∀ c', heads r !! b = Some c' → c' = c) as (c & -> & Hc).
  { destruct (heads r !! b) as [c|].
    - exists c. split; [done|]. by intros ? [= ->].
    - destruct Hb as [[? ?]|[c Hc]]; [done|]. rewrite Hc. by exists c. }
  rewrite switch_to_pristine by done. wsimpl.
  exists (on_branch (objects w) b c r). split; [done|].
  split; [apply on_branch_pristine|]. split; [done|]. split; [done|]. split; [done|].
  split.
  - intros b' Hb'. simpl. destruct (decide (b = b')) as [<-|Hne].
    + rewrite lookup_insert_eq. eauto.
    + by rewrite lookup_insert_ne.
  - intros c' Hc'. simpl. rewrite lookup_insert_eq. f_equal. symmetry. by apply Hc.
Qed.

Lemma pull_pristine p w r b url rm rc lc :
  fs w !! p = Some (Checkout r) →
  pristine (objects w) r →
  HEAD r = Sym b →
  origin r = Some url →
  remotes w !! url = Some rm →
  r_heads rm !! b = Some rc →
  heads r !! b = Some lc →
  Git.is_ancestor (objects w) rc lc = true ∨ Git.is_ancestor (objects w) lc rc = true →
  ∃ r2,
    Git.pull p w
    = Ok tt (set_fs (<[p := Checkout r2]> (fs w)) (emit (EvFetch url) (emit EvPull w)))
    ∧ pristine (objects w) r2
    ∧ HEAD r2 = Sym b
    ∧ tracking r2 = r_heads rm ∪ tracking r
    ∧ (∀ b', is_Some (heads r !! b') → is_Some (heads r2 !! b')).
Proof.
  intros Hfs Hp Hh Hor Hrm Hrc Hlc Hanc.
  unfold Git.pull, bind, log, modify.
  rewrite (open_checkout _ _ r) by done. rewrite Hh, Hor.
  unfold gets, Git.store, modify, ret, raise. wsimpl. rewrite Hrm, Hrc, Hlc. wsimpl.
  set (r1 := set_tracking (r_heads rm ∪ tracking r) r).
  assert (Hp1 : pristine (objects w) r1) by done.
  destruct (Git.is_ancestor (objects w) rc lc) eqn:H1.
  - exists r1. split; [done|]. split; [done|]. split; [done|]. split; [done|]. done.
  - destruct Hanc as [?|H2]; [done|]. rewrite H2.
    rewrite switch_to_pristine by done. wsimpl. rewrite insert_insert_eq.
    exists (on_branch (objects w) b rc r1). split; [done|].
    split; [apply on_branch_pristine|]. split; [done|]. split; [done|].
    intros b' Hb'. simpl. destruct (decide (b = b')) as [<-|Hne].
    + rewrite lookup_insert_eq. eauto.
    + by rewrite lookup_insert_ne.
Qed.

End Pristine.



(** X21. When the local main and the remote's main have diverged, the pull
    of checkout_source_branch raises and the error ends the tool: the branch
    named by SOURCE_BRANCH is never checked out, and the checkout is left on
    main at the commit it had. *)
Theorem checkout_source_branch_diverged (w : World) (r : Repo) (url : string)
    (rm : Remote) (lc rc : nat) :
  fs w !! cwd w = Some (Checkout r) →
  HEAD r = Sym "main" →
  heads r !! "main" = Some lc →
  origin r = Some url →
  remotes w !! url = Some rm →
  r_heads rm !! "main" = Some rc →
  Git.is_ancestor (objects w) rc lc = false →
  Git.is_ancestor (objects w) lc rc = false →
  ∃ w' r',
    checkout_source_branch w = Raise GitCommandError w'
    ∧ emitted w (checkout_source_branch w)
      = [EvCheckout (Some "main"); EvPull; EvFetch url]
    ∧ fs w' !! cwd w = Some (Checkout r')
    ∧ HEAD r' = Sym "main"
    ∧ heads r' !! "main" = Some lc.
Proof.
  intros Hfs Hh Hlc Hor Hrm Hrc H1 H2.
  assert (Hrun : ∃ w' r',
    checkout_source_branch w = Raise GitCommandError w'
    ∧ trace w' = trace w ++ [EvCheckout (Some "main"); EvPull; EvFetch url]
    ∧ fs w' !! cwd w = Some (Checkout r')
    ∧ HEAD r' = Sym "main"
    ∧ heads r' !! "main" = Some lc).
  { unfold checkout_source_branch, bind, os_getcwd, getenv, gets.
    rewrite (open_checkout _ _ r) by done.
    unfold Git.checkout, bind, log, modify.
    rewrite (open_checkout _ _ r) by done. rewrite Hlc.
    unfold Git.switch_to, bind, gets, Git.store, modify. wsimpl.
    unfold Git.head_commit at 1. rewrite Hh, Hlc, switch_safe_same.
    unfold Git.pull, bind, log, modify.
    erewrite open_checkout by (wsimpl; by rewrite lookup_insert_eq).
    wsimpl. rewrite Hor. unfold gets, Git.store, modify, ret, raise. wsimpl.
    rewrite Hrm, Hrc. wsimpl. rewrite lookup_insert_eq, H1, H2.
    eexists _, _. split; [reflexivity|]. wsimpl.
    split; [by rewrite <- !(assoc_L (++))|].
    split; [by rewrite lookup_insert_eq|]. wsimpl.
    split; [done|]. by rewrite lookup_insert_eq. }
  destruct Hrun as (w' & r' & Hrun & Htr & Hrest).
  exists w', r'. split; [done|]. split; [|done].
  unfold emitted. rewrite Hrun. simpl. rewrite Htr. apply drop_app_length.
Qed.

Lemma checkout_source_branch_diverged_witness :
  ∃ w' r',
    checkout_source_branch Cases.diverged = Raise GitCommandError w'
    ∧ emitted Cases.diverged (checkout_source_branch Cases.diverged)
      = [EvCheckout (Some "main"); EvPull; EvFetch Fixture.url]
    ∧ fs w' !! cwd Cases.diverged = Some (Checkout r')
    ∧ HEAD r' = Sym "main"
    ∧ heads r' !! "main" = Some 2.
Proof.
  apply (checkout_source_branch_diverged Cases.diverged
           (mkRepo {[ "main" := 2; "feature" := 1 ]} Cases.refs (Sym "main")
                   Fixture.tree_main Fixture.tree_main (Some Fixture.url))
           Fixture.url (mkRemote {[ "main" := 1; "feature" := 1 ]} "main") 2 1);
    vm_compute; reflexivity.
Defined.

(* ===================================================================== *)
(** ** 22. Further edge cases *)
(* ===================================================================== *)

(** X22. An unset GITHUB_TOKEN is not an error for clone_repo: the
    f-string renders it as the text None, and the clone is attempted with
    that text in the place of the credential. *)
Theorem clone_repo_unset_token (w : World) :
  environ w !! "GITHUB_TOKEN" = None →
  fs w !! LOCAL_REPO_PATH = None →
  ∃ rest,
    emitted w (clone_repo w)
    = EvClone ("https://None@github.com/" +:+ fstr (environ w !! "REPO_PATH") +:+ ".git")
              LOCAL_REPO_PATH :: rest.
Proof.
  intros Ht Hn. rewrite (clone_repo_absent w Hn).
  assert (Hu : url_in w
               = "https://None@github.com/" +:+ fstr (environ w !! "REPO_PATH") +:+ ".git").
  { unfold url_in, repo_url_of. rewrite Ht. reflexivity. }
  rewrite <- Hu.
  destruct (remotes w !! url_in w); unfold emitted; simpl.
  - rewrite <- (assoc_L (++)). rewrite drop_app_length. eauto.
  - rewrite drop_app_length. eauto.
Qed.

Lemma clone_repo_unset_token_witness :
  ∃ rest,
    emitted (set_environ (delete "GITHUB_TOKEN" Fixture.env) Fixture.fresh)
      (clone_repo (set_environ (delete "GITHUB_TOKEN" Fixture.env) Fixture.fresh))
    = EvClone ("https://None@github.com/" +:+ "linhbn123/aiw4" +:+ ".git")
              LOCAL_REPO_PATH :: rest.
Proof.
  destruct (clone_repo_unset_token
              (set_environ (delete "GITHUB_TOKEN" Fixture.env) Fixture.fresh))
    as [rest H]; [vm_compute; reflexivity..|].
  exists rest. refine (eq_trans H _). do 2 f_equal; vm_compute; reflexivity.
Defined.

(** X23. When SOURCE_BRANCH names the active branch and the remote's branch
    is where the local one was, commit_and_push delivers: the new commit,
    whose parent is the old tip, is in the store, and the remote's branch
    points at it. *)
Theorem commit_and_push_delivers (msg : string) (w : World) (r : Repo)
    (a url : string) (rm : Remote) (c : nat) :
  fs w !! cwd w = Some (Checkout r) →
  HEAD r = Sym a →
  environ w !! "SOURCE_BRANCH" = Some a →
  origin r = Some url →
  remotes w !! url = Some rm →
  heads r !! a = Some c →
  r_heads rm !! a = Some c →
  ∃ w' rm',
    commit_and_push msg w = Ok PNone w'
    ∧ objects w' !! length (objects w)
      = Some (mkCommit (Some c) (Git.staged (index r) (worktree r)) msg)
    ∧ remotes w' !! url = Some rm'
    ∧ r_heads rm' !! a = Some (length (objects w)).
Proof.
  intros Hfs Hh Hb Hor Hrm Hc Hrc.
  destruct (commit_and_push_runs msg w r a url rm (length (objects w)))
    as (w' & r' & rm' & Hrun & _ & Hob & _ & _ & _ & _ & _ & Hrm' & Hcase); try done.
  { rewrite Hb. simpl. by rewrite lookup_insert_eq. }
  rewrite Hb in Hcase. simpl in Hcase. rewrite Hc in Hob.
  exists w', rm'. split; [done|].
  split; [rewrite Hob; by rewrite list_lookup_middle|]. split; [done|].
  destruct Hcase as [H|(_ & rc & Hrc' & Hanc)]; [done|].
  rewrite Hrc in Hrc'. injection Hrc' as <-.
  rewrite Hob in Hanc. unfold Git.is_ancestor in Hanc.
  rewrite length_app in Hanc. simpl in Hanc.
  rewrite Nat.add_1_r in Hanc. simpl in Hanc.
  destruct (decide (c = length (objects w))); [done|].
  rewrite list_lookup_middle in Hanc by done. simpl in Hanc.
  destruct (length (objects w)); simpl in Hanc; by rewrite decide_True in Hanc.
Qed.

Lemma commit_and_push_delivers_witness :
  ∃ w' rm',
    commit_and_push "Beautify" (Fixture.checkout_on "feature" None) = Ok PNone w'
    ∧ objects w' !! 2 = Some (mkCommit (Some 1) Fixture.tree_feature "Beautify")
    ∧ remotes w' !! Fixture.url = Some rm'
    ∧ r_heads rm' !! "feature" = Some 2.
Proof.
  destruct (commit_and_push_delivers "Beautify" (Fixture.checkout_on "feature" None)
              Cases.on_feature "feature" Fixture.url Fixture.hosted 1)
    as (w' & rm' & Hrun & Hob & Hrm & Hhd); [vm_compute; reflexivity..|].
  exists w', rm'. split; [exact Hrun|]. split; [|split; [exact Hrm | exact Hhd]].
  refine (eq_trans Hob _). vm_compute. reflexivity.
Defined.

Lemma write_file_same dir name c w :
  read_file dir name w = Some c → fs (write_file dir name c w) = fs w.
Proof.
  unfold read_file, write_file. wsimpl. intros H.
  apply alter_id. intros n Hn. rewrite Hn in H. simpl in H.
  destruct n as [f|r]; simpl in *.
  - by rewrite insert_id.
  - destruct r. simpl in *. unfold set_worktree. simpl. by rewrite insert_id.
Qed.

(** X24. When the formatter leaves the content of every listed file as it
    is (the files already conform), run_autopep8 leaves the file system as
    it is, so a clean checkout stays clean. *)
Theorem run_autopep8_conforming_files (fmt : Formatter) (files : list string) (w : World) :
  autopep8 w = Some fmt →
  (∀ f c, f ∈ files → read_file (cwd w) f w = Some c → (fmt c).2 = c) →
  ∃ w', run_autopep8 files w = Ok PNone w' ∧ fs w' = fs w ∧ cwd w' = cwd w.
Proof.
  revert w. induction files as [|file rest IH]; intros w Ht Hid.
  - by exists w.
  - cbn [run_autopep8]. unfold bind. fold (argv_of file).
    rewrite (subprocess_run_autopep8 fmt) by done.
    assert (Hfs : fs (format_one fmt file w).2 = fs w
                  ∧ cwd (format_one fmt file w).2 = cwd w
                  ∧ autopep8 (format_one fmt file w).2 = autopep8 w).
    { unfold format_one. destruct (read_file (cwd w) file w) as [c|] eqn:E; simpl; [|done].
      split; [|done]. rewrite (Hid file c) by (done || apply list_elem_of_here).
      by apply write_file_same. }
    destruct Hfs as (Hfs & Hcwd & Ha).
    destruct (IH (format_one fmt file w).2) as (w' & Hr & Hfs' & Hcwd').
    + by rewrite Ha.
    + intros f c Hf Hc. apply (Hid f c); [by apply list_elem_of_further|].
      unfold read_file in *. by rewrite Hfs, Hcwd in Hc.
    + exists w'. split; [done|]. split; congruence.
Qed.

Lemma run_autopep8_conforming_files_witness :
  ∃ w',
    run_autopep8 ["c.py"] (Fixture.checkout_on "feature" (Some Fixture.tidy)) = Ok PNone w'
    ∧ fs w' = fs (Fixture.checkout_on "feature" (Some Fixture.tidy))
    ∧ cwd w' = cwd (Fixture.checkout_on "feature" (Some Fixture.tidy)).
Proof.
  apply (run_autopep8_conforming_files Fixture.tidy ["c.py"]
           (Fixture.checkout_on "feature" (Some Fixture.tidy))).
  - reflexivity.
  - intros f c Hf Hc. apply list_elem_of_In in Hf. simpl in Hf.
    destruct Hf as [<-|[]]. vm_compute in Hc. injection Hc as <-.
    vm_compute. reflexivity.
Defined.
